(** * Valence rating utility: prompt builder, grouper, rating parser, batch rater

    A shallow embedding of [src/prompts.py] and [src/valence.py].

    - A Python [str] is a sequence of Unicode code points: [pystr := list N].
    - A Python [int] is an unbounded integer: [Z].
    - A Python [dict] iterates in insertion order, and assigning to a key
      that is already present keeps the key's position: [dict] is an
      association list maintained by [dict_set].
    - [os.getenv] reads a finite map from variable names to values.
    - The Unicode digit table and the integer conversion limit of the
      interpreter are parameters, bundled in the class [Interpreter].
    - The completion service is an oracle of the requests issued so far;
      the calls of a run are recorded in a log, threaded through an
      exception-and-state monad. *)

From Stdlib Require Import ZArith NArith List String Ascii Lia.
From stdpp Require Import base option list gmap strings.

Local Open Scope N_scope.

(** ** Strings *)

Abbreviation char := N (only parsing).
Abbreviation pystr := (list N) (only parsing).

(** An ASCII literal of the source as a sequence of code points. *)
Definition str (s : string) : pystr :=
  map N_of_ascii (list_ascii_of_string s).
Arguments str s%_string.

(** Code points of the source literals that are not printable ASCII. *)
Definition LF : char := 10.          (* "\n" *)
Definition LSQUO : char := 8216.     (* U+2018 *)
Definition RSQUO : char := 8217.     (* U+2019 *)
Definition E_ACUTE : char := 233.    (* U+00E9 *)
Definition LBRACKET : char := 91.    (* "[" *)
Definition RBRACKET : char := 93.    (* "]" *)

(** ** The interpreter's tables

    Two facts about the Python runtime are used by the rater and are not
    part of the repository: the Unicode decimal-digit table behind [\d]
    and [int], and the limit on the length of a decimal string that [int]
    converts ([sys.get_int_max_str_digits()], 0 meaning no limit; the
    interpreter refuses to set a limit between 1 and 639). *)

Class Interpreter := {
  to_decimal : char → option Z;
  int_max_str_digits : nat;
  to_decimal_range : ∀ c d, to_decimal c = Some d → (0 ≤ d ≤ 9)%Z;
  to_decimal_ascii : ∀ c, c < 128 →
    to_decimal c = if (48 <=? c) && (c <=? 57) then Some (Z.of_N c - 48)%Z else None;
  int_max_str_digits_valid :
    int_max_str_digits = 0%nat ∨ (640 ≤ int_max_str_digits)%nat
}.

(** First code point of each run of ten decimal digits of Unicode 14.0
    (general category Nd), the table of CPython 3.11. *)
Definition nd_zeros : list N :=
  [48; 1632; 1776; 1984; 2406; 2534; 2662; 2790; 2918; 3046; 3174; 3302;
   3430; 3558; 3664; 3792; 3872; 4160; 4240; 6112; 6160; 6470; 6608; 6784;
   6800; 6992; 7088; 7232; 7248; 42528; 43216; 43264; 43472; 43504; 43600;
   44016; 65296; 66720; 68912; 69734; 69872; 69942; 70096; 70384; 70736;
   70864; 71248; 71360; 71472; 71904; 72016; 72784; 73040; 73120; 92768;
   92864; 93008; 120782; 120792; 120802; 120812; 120822; 123200; 123632;
   125264; 130032].

Fixpoint decimal_in (zeros : list N) (c : char) : option Z :=
  match zeros with
  | [] => None
  | z :: zeros' =>
      if (z <=? c) && (c <? z + 10) then Some (Z.of_N (c - z))
      else decimal_in zeros' c
  end.

(** ** Exceptions of the rater, one constructor per raise site *)

Inductive exn :=
| SdkUnavailable                      (* RuntimeError, valence.py line 70 *)
| MissingApiKey                       (* RuntimeError, valence.py line 74 *)
| ApiError (msg : pystr)              (* raised inside client.chat.completions.create *)
| ParseError (content : option pystr) (* ValueError, valence.py line 98 *)
| IntDigitsLimit (ndigits : nat)      (* ValueError of int(), line 100: too many digits *)
| IntInvalidLiteral (s : pystr).      (* ValueError of int(), line 100: not a number *)

(** ** The rating parser (valence.py lines 96-105) *)

Section Parser.
Context {I : Interpreter}.

Definition is_digit (c : char) : bool :=
  match to_decimal c with Some _ => true | None => false end.

(** [\d+] is greedy: it takes the longest run of digits. *)
Fixpoint take_digits (s : pystr) : pystr * pystr :=
  match s with
  | c :: s' =>
      if is_digit c
      then let '(ds, rest) := take_digits s' in (c :: ds, rest)
      else ([], s)
  | [] => ([], [])
  end.

(** The pattern [\[(\d+)\]] tried at the start of [s]; the result is
    group 1.  Giving back digits cannot help the match: after a shorter
    run the next character is a digit, not a closing bracket. *)
Definition match_here (s : pystr) : option pystr :=
  match s with
  | c :: s' =>
      if c =? LBRACKET then
        match take_digits s' with
        | (d :: ds, r :: _) => if r =? RBRACKET then Some (d :: ds) else None
        | _ => None
        end
      else None
  | [] => None
  end.

(** [re.search]: the pattern is tried at each position from the left, the
    first position where it matches wins. *)
Fixpoint re_search (s : pystr) : option pystr :=
  match match_here s with
  | Some g => Some g
  | None =>
      match s with
      | [] => None
      | _ :: s' => re_search s'
      end
  end.

(** The value of a string of decimal digits, most significant first. *)
Definition digit_step (acc : option Z) (c : char) : option Z :=
  match acc, to_decimal c with
  | Some n, Some d => Some (10 * n + d)%Z
  | _, _ => None
  end.

Definition digits_value (ds : pystr) : option Z :=
  fold_left digit_step ds (Some 0%Z).

(** The length check of [int]: more digits than the limit, when there is
    a limit. *)
Definition over_limit (s : pystr) : bool :=
  negb (int_max_str_digits =? 0)%nat && (int_max_str_digits <? length s)%nat.

(** [int(s)] for [s] a non-empty run of decimal digits, which is all that
    group 1 can be ([re_search_digits]).  Python's [int] also accepts
    blanks around the number, a sign and underscores between digits; on
    such strings, as on any other, this model answers [IntInvalidLiteral]. *)
Definition py_int (s : pystr) : exn + Z :=
  if over_limit s then inl (IntDigitsLimit (length s))
  else
    match s with
    | [] => inl (IntInvalidLiteral s)
    | _ :: _ =>
        match digits_value s with
        | Some n => inr n
        | None => inl (IntInvalidLiteral s)
        end
    end.

(** Lines 101-105. *)
Definition clamp_rating (rating : Z) : Z :=
  if (rating <? 1)%Z then 1%Z
  else if (rating >? 7)%Z then 7%Z
  else rating.

(** Lines 96-105: from the extracted content to the rating. *)
Definition parse_rating (content : option pystr) : exn + Z :=
  match re_search (default [] content) with
  | None => inl (ParseError content)
  | Some group1 =>
      match py_int group1 with
      | inl e => inl e
      | inr rating => inr (clamp_rating rating)
      end
  end.

End Parser.

(** ** The prompt builder (prompts.py lines 6-37) *)

Definition build_prompts (text lang : pystr) : pystr * pystr :=
  if decide (lang = str "nl") then
    let system_prompt :=
      str "Je bent een expert in de Nederlandse taal die de valentie van Belgisch-Nederlandse teksten analyseert."
    in
    let user_prompt :=
      str "Deelnemers reageerden op:" ++ [LF]
      ++ [LSQUO] ++ str "Wat gebeurt er nu of sinds de vorige prompt, en hoe voel je je daarbij?" ++ [RSQUO; LF]
      ++ str "Lees de reactie van de deelnemer zorgvuldig: " ++ text ++ [LF]
      ++ str "Jouw taak is om het sentiment te beoordelen van 1 (zeer negatief) tot 7 (zeer positief). "
      ++ str "Geef ALLEEN " ++ [E_ACUTE; E_ACUTE] ++ str "n numerieke beoordeling terug, ingesloten tussen vierkante haken, bijvoorbeeld [X], zonder aanvullende tekst." ++ [LF]
      ++ str "Uitvoerformaat: [getal]"
    in
    (system_prompt, user_prompt)
  else
    let system_prompt :=
      str "You are a Dutch language expert analyzing the valence of Belgian Dutch texts."
    in
    let user_prompt :=
      str "Participants responded to:" ++ [LF]
      ++ [LSQUO] ++ str "What is going on now or since the last prompt, and how do you feel about it?" ++ [RSQUO; LF]
      ++ str "Carefully read the response of the participant: " ++ text ++ [LF]
      ++ str "Your task is to rate its sentiment from 1 (very negative) to 7 (very positive)." ++ [LF]
      ++ str "Return ONLY a single numerical rating enclosed in brackets, e.g. [X], with no additional text." ++ [LF]
      ++ str "Output Format: [number]"
    in
    (system_prompt, user_prompt).

(** ** The grouper (valence.py lines 21-54) *)

Record SentimentEntry := {
  sentiment : Z;
  heading : pystr;
  text : pystr
}.

(** The inner dictionary [{"heading": ..., "text": ...}]. *)
Record Payload := {
  payload_heading : pystr;
  payload_text : pystr
}.

(** An insertion-ordered dictionary with integer keys. *)
Definition dict (V : Type) := list (Z * V).

(** [d[k] = v]: an existing key keeps its place and gets the new value, a
    new key goes to the end. *)
Fixpoint dict_set {V} (k : Z) (v : V) (d : dict V) : dict V :=
  match d with
  | [] => [(k, v)]
  | (k', v') :: d' =>
      if decide (k' = k) then (k', v) :: d' else (k', v') :: dict_set k v d'
  end.

Fixpoint dict_get {V} (k : Z) (d : dict V) : option V :=
  match d with
  | [] => None
  | (k', v') :: d' => if decide (k' = k) then Some v' else dict_get k d'
  end.

Definition dict_keys {V} (d : dict V) : list Z := fst <$> d.

(** [len(d)] *)
Definition dict_len {V} (d : dict V) : nat := length d.

(** The [for] loop of lines 48-53 is a left fold over the entries. *)
Definition organize_sentiments_by_score (entries : list SentimentEntry)
  : dict Payload :=
  fold_left
    (λ organized entry,
       let score := sentiment entry in
       dict_set score
         {| payload_heading := heading entry; payload_text := text entry |}
         organized)
    entries [].

(** ** The outside world of the rater *)

(** [OpenAI(api_key=..., base_url=...)]; [client_base_url] is [None] when
    the constructor is called without a base address. *)
Record Client := {
  client_api_key : pystr;
  client_base_url : option pystr
}.

(** One call of [client.chat.completions.create]. *)
Record Request := {
  req_client : Client;
  req_model : pystr;
  req_temperature : Z;
  req_messages : list (pystr * pystr)   (* role, content *)
}.

(** A response is the list of its choices, each the content of its
    message, which the service may leave as [None]. *)
Definition Response := list (option pystr).

Record World := {
  (** whether [from openai import OpenAI] succeeded (lines 14-18) *)
  sdk_available : bool;
  (** [os.environ] *)
  environ : gmap string pystr;
  (** the completion service: given the calls made so far and a new
      call, it raises or answers *)
  completion : list Request → Request → pystr + Response
}.

(** ** Exceptions and the call log

    A computation takes the log of the calls made so far and gives back
    an exception or a value, with the log as it then stands. *)

Definition M (A : Type) : Type := list Request → (exn + A) * list Request.

Definition ret {A} (a : A) : M A := λ log, (inr a, log).
Definition raise {A} (e : exn) : M A := λ log, (inl e, log).
Definition bind {A B} (m : M A) (f : A → M B) : M B :=
  λ log,
    match m log with
    | (inl e, log') => (inl e, log')
    | (inr a, log') => f a log'
    end.

Notation "x <- m ;; k" := (bind m (λ x, k))
  (at level 100, m at next level, right associativity).

Definition lift {A} (r : exn + A) : M A :=
  match r with inl e => raise e | inr a => ret a end.

(** [os.getenv(name)] and [os.getenv(name, fallback)] *)
Definition getenv (w : World) (name : string) : option pystr :=
  environ w !! name.
Definition getenv_or (w : World) (name : string) (fallback : pystr) : pystr :=
  default fallback (environ w !! name).

(** Truth value of [os.getenv(name)]: set and not empty. *)
Definition truthy (v : option pystr) : bool :=
  match v with
  | Some (_ :: _) => true
  | _ => false
  end.

Section Rater.
Context {I : Interpreter} (w : World).

(** Lines 72-81: the client of the chosen runtime.  In the cloud branch
    [os.environ["OPENAI_API_KEY"]] is read after the variable was found set
    and not empty, so the lookup cannot fail. *)
Definition make_client (runtime : pystr) : exn + Client :=
  if decide (runtime = str "cloud") then
    if negb (truthy (getenv w "OPENAI_API_KEY")) then inl MissingApiKey
    else
      let base_url := getenv w "OPENAI_BASE_URL" in
      let api_key := default [] (getenv w "OPENAI_API_KEY") in
      if truthy base_url
      then inr {| client_api_key := api_key; client_base_url := base_url |}
      else inr {| client_api_key := api_key; client_base_url := None |}
  else
    let local_base_url :=
      getenv_or w "LOCAL_OPENAI_BASE_URL" (str "http://localhost:8000/v1") in
    let local_api_key :=
      getenv_or w "OPENAI_API_KEY"
        (getenv_or w "LOCAL_OPENAI_API_KEY" (str "sk-local")) in
    inr {| client_api_key := local_api_key;
           client_base_url := Some local_base_url |}.

(** Lines 85-92: the call is logged, then answered by the service. *)
Definition create_completion (req : Request) : M Response :=
  λ log,
    match completion w log req with
    | inl msg => (inl (ApiError msg), log ++ [req])
    | inr response => (inr response, log ++ [req])
    end.

(** Line 93 *)
Definition first_content (response : Response) : option pystr :=
  match response with
  | [] => Some []
  | choice :: _ => choice
  end.

(** Lines 57-105 *)
Definition rate_sentiment_with_openai_api
    (text model runtime lang : pystr) : M Z :=
  if negb (sdk_available w) then raise SdkUnavailable
  else
    client <- lift (make_client runtime) ;;
    let '(system_prompt, user_prompt) := build_prompts text lang in
    response <- create_completion
      {| req_client := client;
         req_model := model;
         req_temperature := 0;
         req_messages :=
           [(str "system", system_prompt); (str "user", user_prompt)] |} ;;
    let content := first_content response in
    lift (parse_rating content).

(** Lines 117-123: the loop over [organized.items()]. *)
Fixpoint rate_items (items : list (Z * Payload)) (runtime lang : pystr)
    (results : dict Z) : M (dict Z) :=
  match items with
  | [] => ret results
  | (score, payload) :: items' =>
      predicted <- rate_sentiment_with_openai_api
                    (payload_text payload) (str "gpt-4o-mini") runtime lang ;;
      rate_items items' runtime lang (dict_set score predicted results)
  end.

Definition rate_all_texts (organized : dict Payload) (runtime lang : pystr)
  : M (dict Z) :=
  rate_items organized runtime lang [].

End Rater.

(** ** The command line (valence.py lines 126-157)

    [argparse] accepts only the listed choices, so the two arguments are
    enumerations.  Reading and decoding the dataset file
    ([load_sentiments_json], lines 27-31) is an oracle from the file name
    to the entries or to the message of the exception it raises.  What
    [main] prints is represented by the mapping handed to [json.dumps],
    [None] when nothing is printed. *)

Inductive LangArg := LangEn | LangNl.
Inductive RuntimeArg := RuntimeCloud | RuntimeLocal.

Definition lang_str (lang : LangArg) : pystr :=
  match lang with LangEn => str "en" | LangNl => str "nl" end.

Definition runtime_str (runtime : RuntimeArg) : pystr :=
  match runtime with RuntimeCloud => str "cloud" | RuntimeLocal => str "local" end.

(** Lines 145-147 *)
Definition dataset_filename (lang : pystr) : string :=
  if decide (lang = str "en")
  then "sentiments-in-english.json"%string
  else "sentiments-in-dutch.json"%string.

Inductive main_exn :=
| LoadError (msg : pystr)     (* raised inside load_sentiments_json *)
| RaterError (e : exn).       (* raised inside rate_all_texts *)

Definition Loader := string → pystr + list SentimentEntry.

Section Main.
Context {I : Interpreter} (w : World) (load : Loader).

(** Line 155: the condition under which the texts are rated. *)
Definition rating_enabled (runtime : RuntimeArg) : bool :=
  sdk_available w &&
  (truthy (getenv w "OPENAI_API_KEY") ||
   bool_decide (runtime_str runtime = str "local")).

Definition main (lang : LangArg) (runtime : RuntimeArg)
    (log : list Request) : (main_exn + option (dict Z)) * list Request :=
  let filename := dataset_filename (lang_str lang) in
  match load filename with
  | inl msg => (inl (LoadError msg), log)
  | inr entries =>
      let organized := organize_sentiments_by_score entries in
      if rating_enabled runtime then
        match rate_all_texts w organized (runtime_str runtime) (lang_str lang) log with
        | (inl e, log') => (inl (RaterError e), log')
        | (inr model_ratings, log') => (inr (Some model_ratings), log')
        end
      else (inr None, log)
  end.

End Main.

(** * Vocabulary of the properties *)

(** ** Texts *)

(** What the claims call "one or more digits enclosed in square
    brackets", stated on the text and not on the search. *)

Definition is_digits `{Interpreter} (g : pystr) : Prop :=
  g ≠ [] ∧ Forall (λ c, is_digit c = true) g.

(** [g] stands bracketed in [s] right after the prefix [pre]. *)
Definition occurs_at `{Interpreter} (s pre g post : pystr) : Prop :=
  s = pre ++ LBRACKET :: g ++ RBRACKET :: post ∧ is_digits g.

Definition has_bracketed_digits `{Interpreter} (s : pystr) : Prop :=
  ∃ pre g post, occurs_at s pre g post.

(** No occurrence starts further to the left than the one after [pre]. *)
Definition leftmost `{Interpreter} (s pre : pystr) : Prop :=
  ∀ pre' g' post', occurs_at s pre' g' post' → (length pre ≤ length pre')%nat.

(** A text of at most 640 ASCII characters. *)
Definition short_ascii (s : pystr) : bool :=
  forallb (λ c, c <? 128) s && (length s <=? 640)%nat.

(** ** Prompts and requests *)

(** [t] occurs in [s] as a run of consecutive characters. *)
Definition substring (t s : pystr) : Prop :=
  ∃ before after, s = before ++ t ++ after.

(** The two templates of prompts.py: the system prompt, and the user
    prompt cut at the place where the text is inserted (lines 13-22 for
    the Dutch one, lines 25-34 for the English one). *)
Definition dutch_system_prompt : pystr :=
  str "Je bent een expert in de Nederlandse taal die de valentie van Belgisch-Nederlandse teksten analyseert.".

Definition dutch_user_before : pystr :=
  str "Deelnemers reageerden op:" ++ [LF; LSQUO]
  ++ str "Wat gebeurt er nu of sinds de vorige prompt, en hoe voel je je daarbij?"
  ++ [RSQUO; LF] ++ str "Lees de reactie van de deelnemer zorgvuldig: ".

Definition dutch_user_after : pystr :=
  [LF]
  ++ str "Jouw taak is om het sentiment te beoordelen van 1 (zeer negatief) tot 7 (zeer positief). Geef ALLEEN "
  ++ [E_ACUTE; E_ACUTE]
  ++ str "n numerieke beoordeling terug, ingesloten tussen vierkante haken, bijvoorbeeld [X], zonder aanvullende tekst."
  ++ [LF] ++ str "Uitvoerformaat: [getal]".

Definition english_system_prompt : pystr :=
  str "You are a Dutch language expert analyzing the valence of Belgian Dutch texts.".

Definition english_user_before : pystr :=
  str "Participants responded to:" ++ [LF; LSQUO]
  ++ str "What is going on now or since the last prompt, and how do you feel about it?"
  ++ [RSQUO; LF] ++ str "Carefully read the response of the participant: ".

Definition english_user_after : pystr :=
  [LF]
  ++ str "Your task is to rate its sentiment from 1 (very negative) to 7 (very positive)."
  ++ [LF]
  ++ str "Return ONLY a single numerical rating enclosed in brackets, e.g. [X], with no additional text."
  ++ [LF] ++ str "Output Format: [number]".

(** The pair that a template gives for a text. *)
Definition dutch_pair (text : pystr) : pystr * pystr :=
  (dutch_system_prompt, dutch_user_before ++ text ++ dutch_user_after).

Definition english_pair (text : pystr) : pystr * pystr :=
  (english_system_prompt, english_user_before ++ text ++ english_user_after).

(** The two messages of a request. *)
Definition messages_of (text lang : pystr) : list (pystr * pystr) :=
  [(str "system", fst (build_prompts text lang));
   (str "user", snd (build_prompts text lang))].

(** The request of lines 85-92 for a given client. *)
Definition request_of (client : Client) (text model lang : pystr) : Request :=
  {| req_client := client;
     req_model := model;
     req_temperature := 0;
     req_messages := messages_of text lang |}.

(** The request behind an entry of the map carries the fixed model and
    the prompts of the entry's text. *)
Definition request_for (lang : pystr) (item : Z * Payload) (req : Request)
  : Prop :=
  req_model req = str "gpt-4o-mini" ∧
  req_temperature req = 0%Z ∧
  req_messages req = messages_of (payload_text item.2) lang.

(** ** Entries *)

(** What the grouper stores for an entry. *)
Definition payload_of (entry : SentimentEntry) : Payload :=
  {| payload_heading := heading entry; payload_text := text entry |}.

(** One turn of the loop of lines 48-53. *)
Definition organize_step (organized : dict Payload) (entry : SentimentEntry)
  : dict Payload :=
  dict_set (sentiment entry) (payload_of entry) organized.

(** ** A world to run the rater in

    The service answers the first call with a rating out of range, the
    second with a text without a rating, and is out of reach afterwards. *)

Definition demo_answers (log : list Request) (req : Request)
  : pystr + Response :=
  match log with
  | [] => inr [Some (str "I think the score is [9].")]
  | [_] => inr [Some (str "no rating here")]
  | _ => inl (str "connection refused")
  end.

Definition demo_world : World :=
  {| sdk_available := true;
     environ := {[ "OPENAI_API_KEY"%string := str "sk-test" ]};
     completion := demo_answers |}.

Definition demo_client : Client :=
  {| client_api_key := str "sk-test"; client_base_url := None |}.

Definition demo_entries : list SentimentEntry :=
  [ {| sentiment := 7; heading := str "Very positive"; text := str "A" |};
    {| sentiment := 1; heading := str "Very negative"; text := str "B" |};
    {| sentiment := 7; heading := str "Positive again"; text := str "C" |} ].

(** The scores of a list in the order of their first occurrence. *)
Fixpoint first_occurrences (l : list Z) : list Z :=
  match l with
  | [] => []
  | x :: l' => x :: filter (λ y, y ≠ x) (first_occurrences l')
  end.

(** What the grouper stores for an entry, under the entry's score. *)
Definition item_of (entry : SentimentEntry) : Z * Payload :=
  (sentiment entry,
   {| payload_heading := heading entry; payload_text := text entry |}).

(** A loader that finds the two datasets of the demonstration. *)
Definition demo_load (filename : string) : pystr + list SentimentEntry :=
  if decide (filename = "sentiments-in-english.json"%string)
  then inr
    [ {| sentiment := 7; heading := str "Very positive"; text := str "A" |};
      {| sentiment := 1; heading := str "Very negative"; text := str "B" |} ]
  else inl (str "No such file or directory").

(** A world without any variable set, whose service always answers "[4]". *)
Definition bare_world : World :=
  {| sdk_available := true;
     environ := ∅;
     completion := λ _ _, inr [Some (str "[4]")] |}.

(** * Properties *)

(** ** A reference interpreter *)

Lemma decimal_in_range zeros c d :
  decimal_in zeros c = Some d → (0 ≤ d ≤ 9)%Z.
Proof.
  induction zeros as [|z zeros IH]; simpl; [discriminate|].
  destruct ((z <=? c) && (c <? z + 10)) eqn:E; [|exact IH].
  apply andb_prop in E as [E1 E2].
  apply N.leb_le in E1. apply N.ltb_lt in E2.
  intros [= <-]. lia.
Qed.

Lemma decimal_in_above zeros c :
  forallb (λ z, c <? z) zeros = true → decimal_in zeros c = None.
Proof.
  induction zeros as [|z zeros IH]; simpl; [reflexivity|].
  intros [Hz Hrest]%andb_prop. apply N.ltb_lt in Hz.
  replace (z <=? c) with false by (symmetry; apply N.leb_gt; lia).
  simpl. auto.
Qed.

Lemma decimal_in_nd_zeros_ascii c :
  c < 128 →
  decimal_in nd_zeros c =
    if (48 <=? c) && (c <=? 57) then Some (Z.of_N c - 48)%Z else None.
Proof.
  intros Hc.
  change nd_zeros with (48 :: tl nd_zeros). cbn [decimal_in].
  assert (Hrest : decimal_in (tl nd_zeros) c = None).
  { apply decimal_in_above. apply forallb_forall. intros z Hz.
    apply N.ltb_lt.
    assert (Hall : forallb (λ z, 128 <=? z) (tl nd_zeros) = true)
      by (vm_compute; reflexivity).
    rewrite forallb_forall in Hall. apply Hall, N.leb_le in Hz. lia. }
  rewrite Hrest.
  destruct (48 <=? c) eqn:E1; [|reflexivity]. apply N.leb_le in E1.
  destruct (c <=? 57) eqn:E2; cbn [andb].
  - apply N.leb_le in E2.
    replace (c <? 48 + 10) with true by (symmetry; apply N.ltb_lt; lia).
    f_equal. lia.
  - apply N.leb_gt in E2.
    replace (c <? 48 + 10) with false by (symmetry; apply N.ltb_ge; lia).
    reflexivity.
Qed.

Lemma default_limit_valid : 4300%nat = 0%nat ∨ (640 ≤ 4300)%nat.
Proof. right. apply Nat.leb_le. vm_compute. reflexivity. Qed.

(** CPython 3.11 with its default conversion limit. *)
#[export] Instance cpython311 : Interpreter := {|
  to_decimal := decimal_in nd_zeros;
  int_max_str_digits := 4300;
  to_decimal_range := decimal_in_range nd_zeros;
  to_decimal_ascii := decimal_in_nd_zeros_ascii;
  int_max_str_digits_valid := default_limit_valid
|}.

(** ** The rating parser *)

Section ParserFacts.
Context {I : Interpreter}.

Lemma is_digit_ascii c :
  c < 128 → is_digit c = (48 <=? c) && (c <=? 57).
Proof.
  intros Hc. unfold is_digit. rewrite to_decimal_ascii by exact Hc.
  destruct ((48 <=? c) && (c <=? 57)); reflexivity.
Qed.

Lemma rbracket_not_digit : is_digit RBRACKET = false.
Proof. rewrite is_digit_ascii; reflexivity. Qed.

Lemma lbracket_not_digit : is_digit LBRACKET = false.
Proof. rewrite is_digit_ascii; reflexivity. Qed.

Lemma take_digits_split s ds rest :
  take_digits s = (ds, rest) →
  s = ds ++ rest ∧ Forall (λ c, is_digit c = true) ds ∧
  (∀ c rest', rest = c :: rest' → is_digit c = false).
Proof.
  revert ds rest. induction s as [|c s IH]; simpl; intros ds rest.
  - intros [= <- <-]. repeat split; [constructor | discriminate].
  - destruct (is_digit c) eqn:Hc.
    + destruct (take_digits s) as [ds0 rest0] eqn:Hs.
      intros [= <- <-]. destruct (IH _ _ eq_refl) as (-> & Hall & Hstop).
      repeat split; [constructor; assumption | exact Hstop].
    + intros [= <- <-]. repeat split; [constructor|].
      intros c' rest' [= <- <-]. exact Hc.
Qed.

Lemma take_digits_run g c rest :
  Forall (λ c, is_digit c = true) g → is_digit c = false →
  take_digits (g ++ c :: rest) = (g, c :: rest).
Proof.
  intros Hg Hc. induction Hg as [|d g Hd Hg IH]; simpl.
  - rewrite Hc. reflexivity.
  - rewrite Hd, IH. reflexivity.
Qed.

(** The pattern matches at the start of [s] exactly when [s] begins with
    a bracketed run of digits, and group 1 is that run. *)
Lemma match_here_Some s g :
  match_here s = Some g ↔ ∃ post, occurs_at s [] g post.
Proof.
  unfold occurs_at, is_digits. split.
  - destruct s as [|c s]; simpl; [discriminate|].
    destruct (c =? LBRACKET) eqn:Hc; [|discriminate].
    apply N.eqb_eq in Hc as ->.
    destruct (take_digits s) as [ds rest] eqn:Hs.
    apply take_digits_split in Hs as (-> & Hall & _).
    destruct ds as [|d ds]; [discriminate|].
    destruct rest as [|r rest]; [discriminate|].
    destruct (r =? RBRACKET) eqn:Hr; [|discriminate].
    apply N.eqb_eq in Hr as ->. intros [= <-].
    exists rest. repeat split; [discriminate | exact Hall].
  - intros (post & -> & Hne & Hall). simpl.
    rewrite (take_digits_run g RBRACKET post Hall rbracket_not_digit).
    destruct g as [|d g]; [contradiction|]. reflexivity.
Qed.

Lemma match_here_None s :
  match_here s = None ↔ ¬ ∃ g post, occurs_at s [] g post.
Proof.
  split.
  - intros Hnone (g & post & Hocc).
    assert (match_here s = Some g) as Hsome by (apply match_here_Some; eauto).
    congruence.
  - intros Hno. destruct (match_here s) as [g|] eqn:Hm; [|reflexivity].
    apply match_here_Some in Hm as [post Hocc]. exfalso. eauto.
Qed.

Lemma occurs_at_cons c s pre g post :
  occurs_at s pre g post → occurs_at (c :: s) (c :: pre) g post.
Proof. intros [-> Hg]. split; [reflexivity | exact Hg]. Qed.

Lemma occurs_at_tail c s pre g post :
  occurs_at (c :: s) (c :: pre) g post → occurs_at s pre g post.
Proof. intros [[= Hs] Hg]. split; assumption. Qed.

Lemma occurs_at_head c s c' pre g post :
  occurs_at (c :: s) (c' :: pre) g post → c' = c.
Proof. intros [[= -> _] _]. reflexivity. Qed.

(** The search returns the run of the leftmost occurrence. *)
Lemma re_search_Some s g :
  re_search s = Some g ↔ ∃ pre post, occurs_at s pre g post ∧ leftmost s pre.
Proof.
  revert g. induction s as [|c s IH]; intros g.
  - split.
    + simpl. discriminate.
    + intros (pre & post & [Hs _] & _). destruct pre; discriminate.
  - cbn [re_search]. destruct (match_here (c :: s)) as [g0|] eqn:Hm.
    + apply match_here_Some in Hm as [post0 Hocc0]. split.
      * intros [= <-]. exists [], post0. split; [exact Hocc0|].
        intros pre' g' post' _. simpl. lia.
      * intros (pre & post & Hocc & Hleft).
        specialize (Hleft _ _ _ Hocc0). simpl in Hleft.
        destruct pre; [|simpl in Hleft; lia].
        assert (match_here (c :: s) = Some g) as Hg
          by (apply match_here_Some; eauto).
        assert (match_here (c :: s) = Some g0) as Hg0
          by (apply match_here_Some; eauto).
        congruence.
    + rewrite IH. split.
      * intros (pre & post & Hocc & Hleft). exists (c :: pre), post. split.
        { apply occurs_at_cons, Hocc. }
        intros pre' g' post' Hocc'. destruct pre' as [|c' pre'].
        { exfalso. apply (proj1 (match_here_None (c :: s)) Hm). eauto. }
        pose proof (occurs_at_head _ _ _ _ _ _ Hocc') as ->.
        apply occurs_at_tail in Hocc'. apply Hleft in Hocc'. simpl. lia.
      * intros (pre & post & Hocc & Hleft). destruct pre as [|c' pre].
        { exfalso. apply (proj1 (match_here_None (c :: s)) Hm). eauto. }
        pose proof (occurs_at_head _ _ _ _ _ _ Hocc) as ->.
        exists pre, post. split; [apply occurs_at_tail in Hocc; exact Hocc|].
        intros pre' g' post' Hocc'.
        apply (occurs_at_cons c) in Hocc'. apply Hleft in Hocc'.
        simpl in Hocc'. lia.
Qed.

Lemma re_search_None s :
  re_search s = None ↔ ¬ has_bracketed_digits s.
Proof.
  unfold has_bracketed_digits. induction s as [|c s IH].
  - split; [|reflexivity].
    intros _ (pre & g & post & [Hs _]). destruct pre; discriminate.
  - cbn [re_search]. destruct (match_here (c :: s)) as [g0|] eqn:Hm.
    + apply match_here_Some in Hm as [post0 Hocc0]. split; [discriminate|].
      intros Hno. exfalso. apply Hno. eauto.
    + rewrite IH. split.
      * intros Hno (pre & g & post & Hocc). destruct pre as [|c' pre].
        { apply (proj1 (match_here_None (c :: s)) Hm). eauto. }
        pose proof (occurs_at_head _ _ _ _ _ _ Hocc) as ->.
        apply occurs_at_tail in Hocc. apply Hno. eauto.
      * intros Hno (pre & g & post & Hocc). apply Hno.
        exists (c :: pre), g, post. apply occurs_at_cons, Hocc.
Qed.

(** Group 1 is a non-empty run of digits taken from the text. *)
Lemma re_search_digits s g :
  re_search s = Some g → is_digits g.
Proof.
  intros (pre & post & [_ Hg] & _)%re_search_Some. exact Hg.
Qed.

End ParserFacts.

(** ** Conversion of the matched digits *)

Section IntFacts.
Context {I : Interpreter}.

Lemma digits_value_fold ds : digits_value ds = fold_left digit_step ds (Some 0%Z).
Proof. reflexivity. Qed.

Lemma fold_digits_value g a :
  Forall (λ c, is_digit c = true) g → (0 ≤ a)%Z →
  ∃ n, fold_left digit_step g (Some a) = Some n ∧ (a ≤ n)%Z ∧
       (n = 0%Z → Forall (λ c, to_decimal c = Some 0%Z) g).
Proof.
  intros Hg. revert a. induction Hg as [|c g Hc Hg IH]; intros a Ha; simpl.
  - exists a. repeat split; [lia | constructor].
  - unfold is_digit in Hc. destruct (to_decimal c) as [d|] eqn:Hd; [|discriminate].
    pose proof (to_decimal_range c d Hd) as Hrange.
    destruct (IH (10 * a + d)%Z ltac:(lia)) as (n & Hn & Hle & Hzero).
    exists n. repeat split; [exact Hn | lia |].
    intros ->. constructor; [|apply Hzero; reflexivity].
    rewrite Hd. f_equal. lia.
Qed.

(** A run of digits has a value, and it is not negative. *)
Lemma digits_value_digits g :
  Forall (λ c, is_digit c = true) g →
  ∃ n, digits_value g = Some n ∧ (0 ≤ n)%Z ∧
       (n = 0%Z → Forall (λ c, to_decimal c = Some 0%Z) g).
Proof.
  intros Hg. rewrite digits_value_fold. apply fold_digits_value; [exact Hg | lia].
Qed.

(** [int] of group 1 either refuses the run for its length or gives its
    value; it never finds the literal invalid. *)
Lemma py_int_digits g :
  is_digits g →
  (over_limit g = true ∧ py_int g = inl (IntDigitsLimit (length g))) ∨
  (over_limit g = false ∧
   ∃ n, py_int g = inr n ∧ digits_value g = Some n ∧ (0 ≤ n)%Z ∧
        (n = 0%Z → Forall (λ c, to_decimal c = Some 0%Z) g)).
Proof.
  intros [Hne Hg]. unfold py_int.
  destruct (over_limit g); [left; split; reflexivity|].
  right. split; [reflexivity|].
  destruct (digits_value_digits g Hg) as (n & Hn & Hpos & Hzero).
  exists n. destruct g; [contradiction|]. rewrite Hn. repeat split; auto.
Qed.

(** The two exceptions that parsing the content can raise. *)
Lemma parse_rating_raises content e :
  parse_rating content = inl e →
  e = ParseError content ∨ e = IntDigitsLimit (length (default [] (re_search (default [] content)))).
Proof.
  unfold parse_rating.
  destruct (re_search (default [] content)) as [g|] eqn:Hg;
    [|intros [= <-]; left; reflexivity].
  destruct (py_int_digits g (re_search_digits _ _ Hg))
    as [[_ Hint] | [_ (n & Hint & _)]]; rewrite Hint; [|discriminate].
  intros [= <-]. right. reflexivity.
Qed.

Lemma short_not_over_limit s :
  (length s ≤ 640)%nat → over_limit s = false.
Proof.
  intros Hlen. unfold over_limit.
  destruct int_max_str_digits_valid as [-> | Hlim]; [reflexivity|].
  replace (int_max_str_digits <? length s)%nat with false
    by (symmetry; apply Nat.ltb_ge; lia).
  apply andb_false_r.
Qed.

(** The clamp of lines 101-105, case by case. *)
Lemma clamp_rating_spec n :
  (1 ≤ clamp_rating n ≤ 7)%Z ∧
  ((n < 1)%Z → clamp_rating n = 1%Z) ∧
  ((7 < n)%Z → clamp_rating n = 7%Z) ∧
  ((1 ≤ n ≤ 7)%Z → clamp_rating n = n).
Proof.
  unfold clamp_rating.
  destruct (n <? 1)%Z eqn:E1; [apply Z.ltb_lt in E1 | apply Z.ltb_ge in E1].
  - repeat split; lia.
  - rewrite Z.gtb_ltb.
    destruct (7 <? n)%Z eqn:E2; [apply Z.ltb_lt in E2 | apply Z.ltb_ge in E2];
      repeat split; lia.
Qed.

End IntFacts.

(** ** Texts of ASCII characters are read alike by every interpreter *)

Section Transfer.
Context (I1 I2 : Interpreter).

Lemma is_digit_agree c :
  c < 128 → @is_digit I1 c = @is_digit I2 c.
Proof. intros Hc. rewrite !is_digit_ascii by exact Hc. reflexivity. Qed.

Lemma take_digits_agree s :
  Forall (λ c, c < 128) s → @take_digits I1 s = @take_digits I2 s.
Proof.
  induction 1 as [|c s Hc Hs IH]; simpl; [reflexivity|].
  rewrite (is_digit_agree c Hc), IH. reflexivity.
Qed.

Lemma match_here_agree s :
  Forall (λ c, c < 128) s → @match_here I1 s = @match_here I2 s.
Proof.
  intros Hs. destruct Hs as [|c s Hc Hs]; simpl; [reflexivity|].
  rewrite (take_digits_agree s Hs). reflexivity.
Qed.

Lemma re_search_agree s :
  Forall (λ c, c < 128) s → @re_search I1 s = @re_search I2 s.
Proof.
  intros Hs. induction Hs as [|c s Hc Hs IH].
  - reflexivity.
  - cbn [re_search]. rewrite (match_here_agree (c :: s)) by (constructor; assumption).
    rewrite IH. reflexivity.
Qed.

Lemma digits_value_agree s :
  Forall (λ c, c < 128) s → @digits_value I1 s = @digits_value I2 s.
Proof.
  intros Hs. rewrite !digits_value_fold. generalize (Some 0%Z).
  induction Hs as [|c s Hc Hs IH]; intros acc; simpl; [reflexivity|].
  rewrite <- IH. f_equal. unfold digit_step.
  rewrite !to_decimal_ascii by exact Hc. reflexivity.
Qed.

Lemma py_int_agree s :
  Forall (λ c, c < 128) s → (length s ≤ 640)%nat →
  @py_int I1 s = @py_int I2 s.
Proof.
  intros Hs Hlen. unfold py_int.
  pose proof (@short_not_over_limit I1 s Hlen) as H1.
  pose proof (@short_not_over_limit I2 s Hlen) as H2.
  rewrite H1, H2.
  destruct s as [|c s]; [reflexivity|].
  rewrite (digits_value_agree (c :: s) Hs). reflexivity.
Qed.

Lemma parse_rating_agree s :
  short_ascii s = true →
  @parse_rating I1 (Some s) = @parse_rating I2 (Some s).
Proof.
  intros [Hs Hlen]%andb_prop.
  assert (Forall (λ c, c < 128) s) as Hall.
  { apply Forall_forall. intros c Hc. apply N.ltb_lt.
    rewrite forallb_forall in Hs. apply Hs, list_elem_of_In, Hc. }
  apply Nat.leb_le in Hlen.
  unfold parse_rating. cbn [from_option id].
  rewrite (re_search_agree s Hall).
  destruct (@re_search I2 s) as [g|] eqn:Hg; [|reflexivity].
  apply re_search_Some in Hg as (pre & post & [Heq _] & _).
  rewrite py_int_agree; [reflexivity | |].
  - rewrite Heq in Hall. apply Forall_app in Hall as [_ Hall].
    apply Forall_cons in Hall as [_ Hall].
    apply Forall_app in Hall as [Hall _]. exact Hall.
  - rewrite Heq in Hlen.
    rewrite length_app, length_cons, length_app, length_cons in Hlen. lia.
Qed.

End Transfer.

(** ** One run of the rater *)

Section RaterFacts.
Context {I : Interpreter} (w : World).

(** The rater, path by path. *)
Lemma rate_sentiment_run text model runtime lang log :
  rate_sentiment_with_openai_api w text model runtime lang log =
    if sdk_available w then
      match make_client w runtime with
      | inl e => (inl e, log)
      | inr client =>
          let req := request_of client text model lang in
          match completion w log req with
          | inl msg => (inl (ApiError msg), log ++ [req])
          | inr response =>
              (parse_rating (first_content response), log ++ [req])
          end
      end
    else (inl SdkUnavailable, log).
Proof.
  unfold rate_sentiment_with_openai_api, request_of, messages_of.
  destruct (sdk_available w); [|reflexivity]. cbn [negb].
  unfold bind at 1. destruct (make_client w runtime) as [e|client]; [reflexivity|].
  cbn [lift ret]. destruct (build_prompts text lang) as [system_prompt user_prompt].
  unfold bind, create_completion. cbn [fst snd].
  destruct (completion w log _) as [msg|response]; [reflexivity|].
  destruct (parse_rating (first_content response)); reflexivity.
Qed.

(** A rating comes back only after a call that the service answered. *)
Lemma rate_sentiment_returns text model runtime lang log r log' :
  rate_sentiment_with_openai_api w text model runtime lang log = (inr r, log') →
  ∃ client response,
    make_client w runtime = inr client ∧
    log' = log ++ [request_of client text model lang] ∧
    completion w log (request_of client text model lang) = inr response ∧
    parse_rating (first_content response) = inr r.
Proof.
  rewrite rate_sentiment_run.
  destruct (sdk_available w); [|discriminate].
  destruct (make_client w runtime) as [e|client]; [discriminate|].
  cbn zeta. destruct (completion w log _) as [msg|response] eqn:Hc; [discriminate|].
  intros [= Hr <-]. exists client, response. auto.
Qed.

End RaterFacts.

Ltac eval_ascii :=
  rewrite (parse_rating_agree _ cpython311) by (vm_compute; reflexivity);
  vm_compute; reflexivity.

(** C1. Whenever the rater returns normally, the rating lies in [1, 7]
    and is the clamp of the integer parsed from the bracketed digits of the
    response: below 1 it is 1, above 7 it is 7, otherwise it is unchanged.
    The texts "[0]", "[9]" and "[5]" give 1, 7 and 5. *)
Theorem rating_is_clamped_parsed_integer `{Interpreter} :
  (∀ w text model runtime lang log r log',
     rate_sentiment_with_openai_api w text model runtime lang log = (inr r, log') →
     (1 ≤ r ≤ 7)%Z ∧
     ∃ req response group parsed,
       log' = log ++ [req] ∧
       completion w log req = inr response ∧
       re_search (default [] (first_content response)) = Some group ∧
       py_int group = inr parsed ∧
       ((parsed < 1)%Z → r = 1%Z) ∧
       ((7 < parsed)%Z → r = 7%Z) ∧
       ((1 ≤ parsed ≤ 7)%Z → r = parsed)) ∧
  parse_rating (Some (str "[0]")) = inr 1%Z ∧
  parse_rating (Some (str "[9]")) = inr 7%Z ∧
  parse_rating (Some (str "[5]")) = inr 5%Z.
Proof.
  split; [|repeat split; eval_ascii].
  intros w text model runtime lang log r log' Hrun.
  apply rate_sentiment_returns in Hrun
    as (client & response & _ & -> & Hanswer & Hparse).
  unfold parse_rating in Hparse.
  destruct (re_search (default [] (first_content response))) as [group|] eqn:Hg;
    [|discriminate].
  destruct (py_int group) as [e|parsed] eqn:Hint; [discriminate|].
  injection Hparse as <-.
  destruct (clamp_rating_spec parsed) as (Hrange & Hlow & Hhigh & Hmid).
  split; [exact Hrange|].
  exists (request_of client text model lang), response, group, parsed.
  repeat split; auto.
Qed.

(** C2. The parsing error of line 98 is raised exactly when the response
    text holds no run of digits between square brackets; this is so for
    "no rating here", for the empty text and for a response without
    choices. *)
Theorem parse_error_iff_no_bracketed_digits `{Interpreter} :
  (∀ content,
     (∃ c, parse_rating content = inl (ParseError c)) ↔
     ¬ has_bracketed_digits (default [] content)) ∧
  (∀ content,
     ¬ has_bracketed_digits (default [] content) →
     parse_rating content = inl (ParseError content)) ∧
  (∀ w text model runtime lang log client response,
     sdk_available w = true →
     make_client w runtime = inr client →
     completion w log (request_of client text model lang) = inr response →
     (∃ c, fst (rate_sentiment_with_openai_api w text model runtime lang log)
           = inl (ParseError c)) ↔
     ¬ has_bracketed_digits (default [] (first_content response))) ∧
  parse_rating (Some (str "no rating here"))
    = inl (ParseError (Some (str "no rating here"))) ∧
  parse_rating (Some []) = inl (ParseError (Some [])) ∧
  parse_rating (first_content []) = inl (ParseError (Some [])).
Proof.
  assert (Hiff : ∀ content,
            (∃ c, parse_rating content = inl (ParseError c)) ↔
            ¬ has_bracketed_digits (default [] content)).
  { intros content. rewrite <- re_search_None. unfold parse_rating.
    destruct (re_search (default [] content)) as [g|] eqn:Hg.
    - split; [|discriminate]. intros [c Hc]. exfalso.
      destruct (py_int_digits g (re_search_digits _ _ Hg))
        as [[_ Hint] | [_ (n & Hint & _)]]; rewrite Hint in Hc; discriminate.
    - split; [reflexivity | eauto]. }
  split; [exact Hiff|]. split.
  { intros content Hno. apply re_search_None in Hno.
    unfold parse_rating. rewrite Hno. reflexivity. }
  split.
  { intros w text model runtime lang log client response Hsdk Hclient Hanswer.
    rewrite rate_sentiment_run, Hsdk, Hclient. cbn zeta. rewrite Hanswer.
    cbn [fst]. apply Hiff. }
  repeat split; try eval_ascii.
Qed.

(** C3. When the response text holds bracketed digits, the run that is
    parsed is the leftmost one, wherever it stands: "I think the score is
    [5]." gives 5 and "[3] maybe or [5]" gives 3. *)
Theorem first_bracketed_number_is_parsed `{Interpreter} :
  (∀ content, has_bracketed_digits content →
     ∃ pre g post, occurs_at content pre g post ∧ leftmost content pre) ∧
  (∀ content pre g post,
     occurs_at content pre g post → leftmost content pre →
     re_search content = Some g ∧
     parse_rating (Some content) =
       match py_int g with
       | inl e => inl e
       | inr parsed => inr (clamp_rating parsed)
       end) ∧
  parse_rating (Some (str "I think the score is [5].")) = inr 5%Z ∧
  parse_rating (Some (str "[3] maybe or [5]")) = inr 3%Z.
Proof.
  split.
  { intros content Hhas.
    destruct (re_search content) as [g|] eqn:Hg.
    - apply re_search_Some in Hg as (pre & post & Hocc & Hleft). eauto.
    - apply re_search_None in Hg. contradiction. }
  split; [|split; eval_ascii].
  intros content pre g post Hocc Hleft.
  assert (re_search content = Some g) as Hg by (apply re_search_Some; eauto).
  split; [exact Hg|].
  unfold parse_rating. cbn [from_option id]. rewrite Hg. reflexivity.
Qed.

Lemma re_search_digits_then_rbracket `{Interpreter} g :
  Forall (λ c, is_digit c = true) g → re_search (g ++ [RBRACKET]) = None.
Proof.
  induction 1 as [|c g Hc Hg IH].
  - reflexivity.
  - cbn [app re_search match_here].
    destruct (c =? LBRACKET) eqn:E; [|exact IH].
    apply N.eqb_eq in E as ->. rewrite lbracket_not_digit in Hc. discriminate.
Qed.

(** C4. A bracketed number with a minus sign is not recognised: "[-3]",
    and any text made of a minus sign and digits in brackets, raises the
    parsing error. The branch [rating < 1] is therefore taken only when the
    parsed integer is 0, its digits all being zeros, as in "[0]" and
    "[00]". *)
Theorem negative_bracketed_number_not_recognised `{Interpreter} :
  (∀ g, Forall (λ c, is_digit c = true) g →
     parse_rating (Some (LBRACKET :: 45 :: g ++ [RBRACKET]))
       = inl (ParseError (Some (LBRACKET :: 45 :: g ++ [RBRACKET])))) ∧
  parse_rating (Some (str "[-3]")) = inl (ParseError (Some (str "[-3]"))) ∧
  (∀ content group parsed,
     re_search (default [] content) = Some group →
     py_int group = inr parsed →
     (parsed <? 1)%Z = true →
     parsed = 0%Z ∧ Forall (λ c, to_decimal c = Some 0%Z) group) ∧
  parse_rating (Some (str "[0]")) = inr 1%Z ∧
  parse_rating (Some (str "[00]")) = inr 1%Z.
Proof.
  split.
  { intros g Hg. unfold parse_rating. cbn [from_option id].
    assert (is_digit 45 = false) as Hminus by (rewrite is_digit_ascii; reflexivity).
    cbn [re_search match_here take_digits]. rewrite Hminus.
    change (LBRACKET =? LBRACKET) with true. cbn iota.
    change (45 =? LBRACKET) with false. cbn iota.
    rewrite (re_search_digits_then_rbracket g Hg). reflexivity. }
  split; [eval_ascii|]. split; [|split; eval_ascii].
  intros content group parsed Hg Hint Hlt. apply Z.ltb_lt in Hlt.
  destruct (py_int_digits group (re_search_digits _ _ Hg))
    as [[_ Hint'] | [_ (n & Hint' & _ & Hpos & Hzero)]];
    rewrite Hint' in Hint; [discriminate|].
  injection Hint as ->.
  assert (parsed = 0%Z) as -> by lia. auto.
Qed.

(** ** The grouper *)

Section DictFacts.
Context {V : Type}.
Implicit Types (d : dict V) (k : Z) (v : V).

Lemma dict_keys_nil : dict_keys ([] : dict V) = [].
Proof. reflexivity. Qed.

Lemma dict_keys_cons k v d : dict_keys ((k, v) :: d) = k :: dict_keys d.
Proof. reflexivity. Qed.

Lemma dict_get_set_eq k v d : dict_get k (dict_set k v d) = Some v.
Proof.
  induction d as [|[k' v'] d IH]; simpl.
  - rewrite decide_True by reflexivity. reflexivity.
  - destruct (decide (k' = k)) as [->|Hne]; simpl.
    + rewrite decide_True by reflexivity. reflexivity.
    + rewrite decide_False by exact Hne. exact IH.
Qed.

Lemma dict_get_set_ne k k' v d :
  k ≠ k' → dict_get k' (dict_set k v d) = dict_get k' d.
Proof.
  intros Hne. induction d as [|[k0 v0] d IH]; simpl.
  - rewrite decide_False by exact Hne. reflexivity.
  - destruct (decide (k0 = k)) as [->|Hk0]; simpl.
    + rewrite !decide_False by exact Hne. reflexivity.
    + destruct (decide (k0 = k')); [reflexivity | exact IH].
Qed.

Lemma dict_get_None k d : dict_get k d = None ↔ k ∉ dict_keys d.
Proof.
  unfold dict_keys. induction d as [|[k' v'] d IH]; simpl.
  - split; [intros _; apply not_elem_of_nil | reflexivity].
  - rewrite not_elem_of_cons. destruct (decide (k' = k)) as [->|Hne].
    + split; [discriminate | intros [Hk _]; contradiction].
    + rewrite IH. split; [intros Hk; split; [congruence | exact Hk] | intros [_ Hk]; exact Hk].
Qed.

Lemma dict_get_is_Some k d : is_Some (dict_get k d) ↔ k ∈ dict_keys d.
Proof.
  rewrite <- not_eq_None_Some, dict_get_None.
  destruct (decide (k ∈ dict_keys d)); split; intros; tauto.
Qed.

(** Assignment keeps the keys in place and appends a new one. *)
Lemma dict_keys_set k v d :
  dict_keys (dict_set k v d) =
    if decide (k ∈ dict_keys d) then dict_keys d else dict_keys d ++ [k].
Proof.
  unfold dict_keys. induction d as [|[k' v'] d IH].
  - destruct (decide (k ∈ fst <$> ([] : dict V))) as [Hin|_]; [|reflexivity].
    apply elem_of_nil in Hin. contradiction.
  - cbn [dict_set]. destruct (decide (k' = k)) as [->|Hne].
    + destruct (decide (k ∈ fst <$> (k, v') :: d)) as [_|Hout]; [reflexivity|].
      exfalso. apply Hout. apply list_elem_of_here.
    + rewrite !fmap_cons, IH. cbn [fst].
      destruct (decide (k ∈ fst <$> d)) as [Hin|Hout];
        destruct (decide (k ∈ k' :: (fst <$> d))) as [Hin'|Hout'];
        try reflexivity.
      * exfalso. apply Hout'. apply list_elem_of_further, Hin.
      * apply elem_of_cons in Hin' as [->|Hin']; contradiction.
Qed.

Lemma elem_of_dict_keys_set k k' v d :
  k' ∈ dict_keys (dict_set k v d) ↔ k' = k ∨ k' ∈ dict_keys d.
Proof.
  rewrite dict_keys_set. destruct (decide (k ∈ dict_keys d)) as [Hin|Hout].
  - split; [auto | intros [->|?]; assumption].
  - rewrite elem_of_app, list_elem_of_singleton. tauto.
Qed.

Lemma NoDup_dict_keys_set k v d :
  NoDup (dict_keys d) → NoDup (dict_keys (dict_set k v d)).
Proof.
  intros Hd. rewrite dict_keys_set.
  destruct (decide (k ∈ dict_keys d)) as [Hin|Hout]; [exact Hd|].
  apply NoDup_app. split; [exact Hd|]. split.
  - intros x Hx ->%list_elem_of_singleton. contradiction.
  - apply NoDup_singleton.
Qed.

End DictFacts.

Section GrouperFacts.
Implicit Types (entries : list SentimentEntry) (organized : dict Payload).

Lemma organize_fold entries :
  organize_sentiments_by_score entries = fold_left organize_step entries [].
Proof. reflexivity. Qed.

(** Entries with other scores leave the value under a score alone. *)
Lemma fold_organize_get_other entries organized k :
  Forall (λ e, sentiment e ≠ k) entries →
  dict_get k (fold_left organize_step entries organized) = dict_get k organized.
Proof.
  intros Hall. revert organized.
  induction Hall as [|e entries He Hall IH]; intros organized; simpl.
  - reflexivity.
  - rewrite IH. unfold organize_step. apply dict_get_set_ne, He.
Qed.

Lemma fold_organize_keys entries organized :
  NoDup (dict_keys organized) →
  NoDup (dict_keys (fold_left organize_step entries organized)) ∧
  ∀ k, k ∈ dict_keys (fold_left organize_step entries organized) ↔
       k ∈ dict_keys organized ∨ k ∈ sentiment <$> entries.
Proof.
  revert organized. induction entries as [|e entries IH]; intros organized Hd; simpl.
  - split; [exact Hd|]. intros k. rewrite elem_of_nil. tauto.
  - destruct (IH (organize_step organized e)) as [Hnodup Hkeys].
    { apply NoDup_dict_keys_set, Hd. }
    split; [exact Hnodup|]. intros k. rewrite Hkeys.
    unfold organize_step. rewrite elem_of_dict_keys_set, elem_of_cons. tauto.
Qed.

(** Every stored value is the heading and text of an entry with that score. *)
Lemma fold_organize_get_Some entries organized k p :
  dict_get k (fold_left organize_step entries organized) = Some p →
  dict_get k organized = Some p ∨
  ∃ e, e ∈ entries ∧ sentiment e = k ∧ p = payload_of e.
Proof.
  revert organized. induction entries as [|e entries IH]; intros organized; simpl.
  - auto.
  - intros [Hget|(e' & Hin & Hk & Hp)]%IH.
    + unfold organize_step in Hget.
      destruct (decide (sentiment e = k)) as [<-|Hne].
      * rewrite dict_get_set_eq in Hget. injection Hget as <-.
        right. exists e. split; [apply list_elem_of_here | auto].
      * rewrite dict_get_set_ne in Hget by exact Hne. auto.
    + right. exists e'. split; [apply list_elem_of_further, Hin | auto].
Qed.

End GrouperFacts.

(** Among the entries with a given score there is a last one. *)
Lemma last_entry_with_score (entries : list SentimentEntry) k :
  k ∈ sentiment <$> entries →
  ∃ entries1 e entries2,
    entries = entries1 ++ e :: entries2 ∧ sentiment e = k ∧
    Forall (λ e', sentiment e' ≠ k) entries2.
Proof.
  induction entries as [|e0 entries IH]; [intros []%elem_of_nil|].
  rewrite fmap_cons, elem_of_cons.
  destruct (decide (k ∈ sentiment <$> entries)) as [Hin|Hout].
  - intros _. destruct (IH Hin) as (entries1 & e & entries2 & -> & Hk & Hlast).
    exists (e0 :: entries1), e, entries2. auto.
  - intros [->|Hin]; [|contradiction].
    exists [], e0, entries. repeat split. apply Forall_forall.
    intros e' He' Heq. apply Hout. rewrite <- Heq.
    apply list_elem_of_fmap. eauto.
Qed.

Lemma organize_get_last entries1 e entries2 :
  Forall (λ e', sentiment e' ≠ sentiment e) entries2 →
  dict_get (sentiment e)
    (organize_sentiments_by_score (entries1 ++ e :: entries2))
    = Some (payload_of e).
Proof.
  intros Hlast. rewrite organize_fold, fold_left_app. cbn [fold_left].
  rewrite fold_organize_get_other by exact Hlast.
  apply dict_get_set_eq.
Qed.

(** C5. When several entries share a score, the map holds under that
    score the heading and text of the last of them in list order, and not
    those of an earlier one; such a last entry exists for every score of
    the list, and the grouper raises nothing. *)
Theorem organize_last_entry_wins :
  (∀ entries1 e entries2,
     Forall (λ e', sentiment e' ≠ sentiment e) entries2 →
     let organized := organize_sentiments_by_score (entries1 ++ e :: entries2) in
     dict_get (sentiment e) organized = Some (payload_of e) ∧
     ∀ e0, e0 ∈ entries1 → sentiment e0 = sentiment e →
           payload_of e0 ≠ payload_of e →
           dict_get (sentiment e) organized ≠ Some (payload_of e0)) ∧
  (∀ entries k,
     k ∈ sentiment <$> entries →
     ∃ entries1 e entries2,
       entries = entries1 ++ e :: entries2 ∧ sentiment e = k ∧
       Forall (λ e', sentiment e' ≠ k) entries2 ∧
       dict_get k (organize_sentiments_by_score entries) = Some (payload_of e)).
Proof.
  split.
  - intros entries1 e entries2 Hlast organized.
    pose proof (organize_get_last entries1 e entries2 Hlast) as Hget.
    fold organized in Hget. split; [exact Hget|].
    intros e0 _ _ Hdiff. rewrite Hget. congruence.
  - intros entries k Hin.
    destruct (last_entry_with_score entries k Hin)
      as (entries1 & e & entries2 & -> & <- & Hlast).
    exists entries1, e, entries2. repeat split; [exact Hlast|].
    apply organize_get_last, Hlast.
Qed.

(** C6. The keys of the map are exactly the distinct scores of the list:
    no key is repeated, a score is a key if and only if some entry has it,
    the size of the map is the number of distinct scores, every value
    comes from an entry with that score, and a score of no entry has no
    value. *)
Theorem organized_keys_are_the_distinct_scores entries :
  let organized := organize_sentiments_by_score entries in
  NoDup (dict_keys organized) ∧
  (∀ k, k ∈ dict_keys organized ↔ ∃ e, e ∈ entries ∧ sentiment e = k) ∧
  (list_to_set (dict_keys organized) : gset Z)
    = list_to_set (sentiment <$> entries) ∧
  dict_len organized = size (list_to_set (sentiment <$> entries) : gset Z) ∧
  (∀ k p, dict_get k organized = Some p →
          ∃ e, e ∈ entries ∧ sentiment e = k ∧ p = payload_of e) ∧
  (∀ k, (∀ e, e ∈ entries → sentiment e ≠ k) → dict_get k organized = None).
Proof.
  intros organized.
  destruct (fold_organize_keys entries []) as [Hnodup Hkeys];
    [apply NoDup_nil_2|].
  rewrite <- organize_fold in Hnodup, Hkeys. fold organized in Hnodup, Hkeys.
  assert (Hmem : ∀ k, k ∈ dict_keys organized ↔ k ∈ sentiment <$> entries).
  { intros k. rewrite Hkeys. unfold dict_keys at 1. simpl.
    rewrite elem_of_nil. tauto. }
  assert (Hset : (list_to_set (dict_keys organized) : gset Z)
                 = list_to_set (sentiment <$> entries)).
  { apply set_eq. intros k. rewrite !elem_of_list_to_set. apply Hmem. }
  split; [exact Hnodup|]. split.
  { intros k. rewrite Hmem, list_elem_of_fmap. split.
    - intros (e & -> & He). eauto.
    - intros (e & He & <-). eauto. }
  split; [exact Hset|]. split.
  { rewrite <- Hset, size_list_to_set by exact Hnodup.
    unfold dict_len, dict_keys. rewrite length_fmap. reflexivity. }
  split.
  { intros k p Hget. unfold organized in Hget. rewrite organize_fold in Hget.
    apply fold_organize_get_Some in Hget as [Hget|Hget]; [discriminate | exact Hget]. }
  intros k Hno. apply dict_get_None. rewrite Hmem, list_elem_of_fmap.
  intros (e & -> & He). exact (Hno e He eq_refl).
Qed.

(** ** The prompt builder *)

(** C8. For every text, the empty one included, and every tag, the
    builder returns the Dutch pair when the tag is "nl" and the English pair
    for any other tag, without raising anything; the two pairs are the two
    templates of the source, they differ, and in both the text stands
    unchanged inside the user prompt. *)
Theorem build_prompts_two_templates :
  (∀ text lang,
     build_prompts text lang =
       if decide (lang = str "nl") then dutch_pair text else english_pair text) ∧
  (∀ text, build_prompts text (str "nl") = dutch_pair text) ∧
  (∀ text lang, lang ≠ str "nl" → build_prompts text lang = english_pair text) ∧
  (∀ text1 text2, dutch_pair text1 ≠ english_pair text2) ∧
  (∀ text lang, substring text (snd (build_prompts text lang))) ∧
  build_prompts [] (str "nl")
    = (dutch_system_prompt, dutch_user_before ++ dutch_user_after) ∧
  build_prompts [] (str "fr")
    = (english_system_prompt, english_user_before ++ english_user_after).
Proof.
  assert (Hnl : ∀ text, build_prompts text (str "nl") = dutch_pair text).
  { intros text. vm_compute. reflexivity. }
  assert (Hen : ∀ text lang,
            lang ≠ str "nl" → build_prompts text lang = english_pair text).
  { intros text lang Hne. unfold build_prompts.
    destruct (decide (lang = str "nl")); [contradiction|].
    vm_compute. reflexivity. }
  assert (Hshape : ∀ text lang,
            build_prompts text lang =
              if decide (lang = str "nl") then dutch_pair text
              else english_pair text).
  { intros text lang. destruct (decide (lang = str "nl")) as [->|Hne];
      [apply Hnl | apply Hen, Hne]. }
  split; [exact Hshape|]. split; [exact Hnl|]. split; [exact Hen|].
  split.
  { intros text1 text2 Heq. apply (f_equal fst) in Heq.
    vm_compute in Heq. discriminate. }
  split.
  { intros text lang. rewrite Hshape. unfold substring, dutch_pair, english_pair.
    destruct (decide (lang = str "nl")); cbn [snd]; eauto. }
  split.
  - rewrite Hnl. reflexivity.
  - rewrite Hen by (vm_compute; discriminate). reflexivity.
Qed.

(** ** Credentials *)

(** C10. With a runtime other than "cloud" the key is that of
    OPENAI_API_KEY when the variable is set, else that of
    LOCAL_OPENAI_API_KEY when that one is set, else "sk-local"; the
    address is that of LOCAL_OPENAI_BASE_URL when set, else
    "http://localhost:8000/v1"; and the rater never raises the
    missing-key error of the cloud runtime. *)
Theorem local_runtime_credentials `{Interpreter} w runtime :
  runtime ≠ str "cloud" →
  ∃ client,
    make_client w runtime = inr client ∧
    client_api_key client =
      match environ w !! "OPENAI_API_KEY"%string with
      | Some key => key
      | None =>
          match environ w !! "LOCAL_OPENAI_API_KEY"%string with
          | Some key => key
          | None => str "sk-local"
          end
      end ∧
    client_base_url client =
      Some match environ w !! "LOCAL_OPENAI_BASE_URL"%string with
           | Some url => url
           | None => str "http://localhost:8000/v1"
           end ∧
    ∀ text model lang log,
      fst (rate_sentiment_with_openai_api w text model runtime lang log)
        ≠ inl MissingApiKey.
Proof.
  intros Hlocal. unfold make_client.
  destruct (decide (runtime = str "cloud")) as [Hcloud|_]; [contradiction|].
  eexists. split; [reflexivity|]. cbn [client_api_key client_base_url].
  unfold getenv_or.
  split; [destruct (environ w !! "OPENAI_API_KEY"%string);
          [reflexivity | destruct (environ w !! "LOCAL_OPENAI_API_KEY"%string); reflexivity]|].
  split; [destruct (environ w !! "LOCAL_OPENAI_BASE_URL"%string); reflexivity|].
  intros text model lang log. rewrite rate_sentiment_run.
  destruct (sdk_available w); [|cbn; discriminate].
  unfold make_client.
  destruct (decide (runtime = str "cloud")) as [Hcloud|_]; [contradiction|].
  cbn zeta. destruct (completion w log _) as [msg|response]; cbn [fst];
    [discriminate|].
  intros [Hparse|Hparse]%parse_rating_raises; discriminate.
Qed.

(** ** The batch rater *)

Section BatchFacts.
Context {I : Interpreter} (w : World).

(** The rater adds at most one call to the log, the one for its text. *)
Lemma rate_sentiment_log text model runtime lang log out log' :
  rate_sentiment_with_openai_api w text model runtime lang log = (out, log') →
  (log' = log ∧ ∃ e, out = inl e) ∨
  (∃ req, log' = log ++ [req] ∧ req_model req = model ∧
          req_temperature req = 0%Z ∧
          req_messages req = messages_of text lang).
Proof.
  rewrite rate_sentiment_run.
  destruct (sdk_available w); [|intros [= <- <-]; eauto].
  destruct (make_client w runtime) as [e|client]; [intros [= <- <-]; eauto|].
  cbn zeta. intros Hrun. right. exists (request_of client text model lang).
  destruct (completion w log _); injection Hrun as <- <-; auto.
Qed.

Lemma rate_items_cons score payload items runtime lang results log :
  rate_items w ((score, payload) :: items) runtime lang results log =
    match rate_sentiment_with_openai_api w (payload_text payload)
            (str "gpt-4o-mini") runtime lang log with
    | (inl e, log') => (inl e, log')
    | (inr predicted, log') =>
        rate_items w items runtime lang (dict_set score predicted results) log'
    end.
Proof. reflexivity. Qed.

(** The loop over a list in two parts: the second part runs only if the
    first one raised nothing, from the results and the log it left. *)
Lemma rate_items_app items1 items2 runtime lang results log :
  rate_items w (items1 ++ items2) runtime lang results log =
    match rate_items w items1 runtime lang results log with
    | (inl e, log') => (inl e, log')
    | (inr results', log') => rate_items w items2 runtime lang results' log'
    end.
Proof.
  revert results log. induction items1 as [|[score payload] items1 IH];
    intros results log.
  - reflexivity.
  - rewrite <- app_comm_cons, !rate_items_cons.
    destruct (rate_sentiment_with_openai_api w _ _ _ _ log) as [[e|predicted] log'];
      [reflexivity | apply IH].
Qed.

(** The calls of a batch are those of a leading part of the entries, one
    call per entry and in their order; when the batch returns, that part
    is the whole map and every key has its result. *)
Lemma rate_items_trace items runtime lang results log out log' :
  rate_items w items runtime lang results log = (out, log') →
  ∃ requests,
    log' = log ++ requests ∧
    Forall2 (request_for lang) (take (length requests) items) requests ∧
    ∀ results', out = inr results' →
      length requests = length items ∧
      ∀ k, k ∈ dict_keys results' ↔ k ∈ dict_keys results ∨ k ∈ dict_keys items.
Proof.
  revert results log. induction items as [|[score payload] items IH];
    intros results log.
  - intros [= <- <-]. exists []. rewrite app_nil_r.
    split; [reflexivity|]. split; [constructor|].
    intros results' [= <-]. split; [reflexivity|].
    intros k. rewrite dict_keys_nil, elem_of_nil. tauto.
  - rewrite rate_items_cons.
    destruct (rate_sentiment_with_openai_api w _ _ _ _ log)
      as [[e|predicted] log1] eqn:Hrate.
    + intros [= <- <-].
      apply rate_sentiment_log in Hrate as [[-> _] | (req & -> & Hreq)].
      * exists []. rewrite app_nil_r. split; [reflexivity|].
        split; [constructor | intros results' [=]].
      * exists [req]. split; [reflexivity|].
        split; [|intros results' [=]].
        simpl. constructor; [exact Hreq | constructor].
    + intros Hrest. apply IH in Hrest as (requests & -> & Htrace & Hdone).
      apply rate_sentiment_log in Hrate
        as [[_ [e [=]]] | (req & -> & Hreq)].
      exists (req :: requests). rewrite <- app_assoc. split; [reflexivity|].
      split; [simpl; constructor; [exact Hreq | exact Htrace]|].
      intros results' Hout. destruct (Hdone results' Hout) as [Hlen Hkeys].
      split; [simpl; congruence|].
      intros k. rewrite Hkeys, elem_of_dict_keys_set, dict_keys_cons, elem_of_cons.
      tauto.
Qed.

End BatchFacts.

(** C9. The batch rater rates the entries of the map one at a time in the
    order of the map, one call of the rater per entry. If the rater raises
    on an entry, the batch raises the same exception there: the log is
    the one the failing call left, so no later entry is rated, and the
    outcome is the exception, with no results. *)
Theorem batch_rater_stops_at_first_failure `{Interpreter} w runtime lang :
  (∀ organized log out log',
     rate_all_texts w organized runtime lang log = (out, log') →
     ∃ requests,
       log' = log ++ requests ∧
       Forall2 (request_for lang) (take (length requests) organized) requests ∧
       ∀ results, out = inr results →
         length requests = length organized ∧
         ∀ k, k ∈ dict_keys results ↔ k ∈ dict_keys organized) ∧
  (∀ before score payload after log results1 log1 e log2,
     rate_all_texts w before runtime lang log = (inr results1, log1) →
     rate_sentiment_with_openai_api w (payload_text payload)
       (str "gpt-4o-mini") runtime lang log1 = (inl e, log2) →
     rate_all_texts w (before ++ (score, payload) :: after) runtime lang log
       = (inl e, log2)).
Proof.
  split.
  - intros organized log out log' Hrun. unfold rate_all_texts in Hrun.
    apply rate_items_trace in Hrun as (requests & -> & Htrace & Hdone).
    exists requests. split; [reflexivity|]. split; [exact Htrace|].
    intros results Hout. destruct (Hdone results Hout) as [Hlen Hkeys].
    split; [exact Hlen|]. intros k. rewrite Hkeys, dict_keys_nil, elem_of_nil.
    tauto.
  - intros before score payload after log results1 log1 e log2 Hbefore Hfail.
    unfold rate_all_texts in *.
    rewrite rate_items_app, Hbefore, rate_items_cons, Hfail. reflexivity.
Qed.

(** ** The properties at work

    The statements above, applied to the reference interpreter and the
    demonstration world. *)

(** With the default limit of CPython 3.11, a bracketed run of 4301
    digits is found by the search and refused by [int]. *)
Example over_long_run_is_refused :
  @parse_rating cpython311 (Some (LBRACKET :: repeat 49 4301 ++ [RBRACKET]))
    = inl (IntDigitsLimit 4301).
Proof. vm_compute. reflexivity. Qed.

Lemma rating_is_clamped_parsed_integer_witness :
  rate_sentiment_with_openai_api demo_world
    (str "A") (str "gpt-4o-mini") (str "cloud") (str "en") []
    = (inr 7%Z, [request_of demo_client (str "A") (str "gpt-4o-mini") (str "en")]) ∧
  (1 ≤ 7 ≤ 7)%Z.
Proof.
  assert (Hrun :
    rate_sentiment_with_openai_api demo_world
      (str "A") (str "gpt-4o-mini") (str "cloud") (str "en") []
    = (inr 7%Z, [request_of demo_client (str "A") (str "gpt-4o-mini") (str "en")])).
  { vm_compute. reflexivity. }
  split; [exact Hrun|].
  exact (proj1 (proj1 rating_is_clamped_parsed_integer _ _ _ _ _ _ _ _ Hrun)).
Defined.

Lemma parse_error_iff_no_bracketed_digits_witness :
  (∃ c, fst (rate_sentiment_with_openai_api demo_world
               (str "B") (str "gpt-4o-mini") (str "cloud") (str "en")
               [request_of demo_client (str "A") (str "gpt-4o-mini") (str "en")])
        = inl (ParseError c)) ↔
  ¬ has_bracketed_digits (str "no rating here").
Proof.
  apply (proj1 (proj2 (proj2 parse_error_iff_no_bracketed_digits))
           demo_world (str "B") (str "gpt-4o-mini") (str "cloud") (str "en")
           [request_of demo_client (str "A") (str "gpt-4o-mini") (str "en")]
           demo_client [Some (str "no rating here")]).
  - reflexivity.
  - vm_compute. reflexivity.
  - vm_compute. reflexivity.
Defined.

Lemma first_bracketed_number_is_parsed_witness :
  re_search (str "[3] maybe or [5]") = Some (str "3") ∧
  parse_rating (Some (str "[3] maybe or [5]")) =
    match py_int (str "3") with
    | inl e => inl e
    | inr parsed => inr (clamp_rating parsed)
    end.
Proof.
  apply (proj1 (proj2 first_bracketed_number_is_parsed)
           (str "[3] maybe or [5]") [] (str "3") (str " maybe or [5]")).
  - split; [vm_compute; reflexivity|].
    split; [vm_compute; discriminate|].
    constructor; [vm_compute; reflexivity | constructor].
  - intros pre' g' post' _. apply Nat.le_0_l.
Defined.

Lemma negative_bracketed_number_not_recognised_witness :
  parse_rating (Some (LBRACKET :: 45 :: str "3" ++ [RBRACKET]))
    = inl (ParseError (Some (LBRACKET :: 45 :: str "3" ++ [RBRACKET]))) ∧
  (0 = 0 ∧ Forall (λ c, to_decimal c = Some 0) (str "00"))%Z.
Proof.
  split.
  - apply (proj1 negative_bracketed_number_not_recognised (str "3")).
    constructor; [vm_compute; reflexivity | constructor].
  - apply (proj1 (proj2 (proj2 negative_bracketed_number_not_recognised))
             (Some (str "[00]")) (str "00") 0%Z);
      vm_compute; reflexivity.
Defined.

Lemma organize_last_entry_wins_witness :
  dict_get 7 (organize_sentiments_by_score demo_entries)
    = Some {| payload_heading := str "Positive again"; payload_text := str "C" |}.
Proof.
  apply (proj1 organize_last_entry_wins
           [ {| sentiment := 7; heading := str "Very positive"; text := str "A" |};
             {| sentiment := 1; heading := str "Very negative"; text := str "B" |} ]
           {| sentiment := 7; heading := str "Positive again"; text := str "C" |}
           []).
  constructor.
Defined.

Lemma organized_keys_are_the_distinct_scores_witness :
  dict_get 4 (organize_sentiments_by_score demo_entries) = None.
Proof.
  apply (proj2 (proj2 (proj2 (proj2 (proj2
           (organized_keys_are_the_distinct_scores demo_entries)))))).
  intros e He. unfold demo_entries in He.
  repeat (apply elem_of_cons in He as [->|He]; [discriminate|]).
  apply elem_of_nil in He. destruct He.
Defined.

Lemma build_prompts_two_templates_witness :
  build_prompts (str "A") (str "en") = english_pair (str "A").
Proof.
  apply (proj1 (proj2 (proj2 build_prompts_two_templates)) (str "A") (str "en")).
  vm_compute. discriminate.
Defined.

Lemma batch_rater_stops_at_first_failure_witness :
  rate_all_texts demo_world
    [ (7%Z, {| payload_heading := str "h7"; payload_text := str "A" |});
      (1%Z, {| payload_heading := str "h1"; payload_text := str "B" |});
      (4%Z, {| payload_heading := str "h4"; payload_text := str "C" |}) ]
    (str "cloud") (str "en") []
  = (inl (ParseError (Some (str "no rating here"))),
     [ request_of demo_client (str "A") (str "gpt-4o-mini") (str "en");
       request_of demo_client (str "B") (str "gpt-4o-mini") (str "en") ]).
Proof.
  apply (proj2 (batch_rater_stops_at_first_failure
                  demo_world (str "cloud") (str "en"))
           [ (7%Z, {| payload_heading := str "h7"; payload_text := str "A" |}) ]
           1%Z {| payload_heading := str "h1"; payload_text := str "B" |}
           [ (4%Z, {| payload_heading := str "h4"; payload_text := str "C" |}) ]
           [] [(7%Z, 7%Z)]
           [ request_of demo_client (str "A") (str "gpt-4o-mini") (str "en") ]).
  - vm_compute. reflexivity.
  - vm_compute. reflexivity.
Defined.

Lemma local_runtime_credentials_witness :
  ∃ client,
    make_client demo_world (str "local") = inr client ∧
    client_api_key client = str "sk-test" ∧
    client_base_url client = Some (str "http://localhost:8000/v1").
Proof.
  destruct (local_runtime_credentials demo_world (str "local"))
    as (client & Hclient & Hkey & Hurl & _).
  - vm_compute. discriminate.
  - exists client. split; [exact Hclient|]. split.
    + rewrite Hkey. vm_compute. reflexivity.
    + rewrite Hurl. vm_compute. reflexivity.
Defined.

(** * Further properties of the code *)

(** ** The client of the cloud runtime and the exceptions of the rater *)

Lemma truthy_false (v : option (list N)) :
  truthy v = false ↔ v = None ∨ v = Some [].
Proof.
  destruct v as [[|c s]|]; simpl.
  - split; auto.
  - split; [discriminate | intros [Hv|Hv]; discriminate].
  - split; auto.
Qed.

(** X1. In the cloud runtime the missing-key error is raised exactly when
    OPENAI_API_KEY is unset or set to the empty string; otherwise the
    client carries the key, and the address of OPENAI_BASE_URL only when
    that variable is set and not empty. *)
Theorem cloud_runtime_credentials w :
  (make_client w (str "cloud") = inl MissingApiKey ↔
     environ w !! "OPENAI_API_KEY"%string = None ∨
     environ w !! "OPENAI_API_KEY"%string = Some []) ∧
  (∀ key, environ w !! "OPENAI_API_KEY"%string = Some key → key ≠ [] →
     make_client w (str "cloud") =
       inr {| client_api_key := key;
              client_base_url :=
                match environ w !! "OPENAI_BASE_URL"%string with
                | Some (c :: url) => Some (c :: url)
                | _ => None
                end |}).
Proof.
  unfold make_client, getenv.
  destruct (decide (str "cloud" = str "cloud")) as [_|Hne]; [|contradiction].
  split.
  - rewrite <- truthy_false.
    destruct (truthy (environ w !! "OPENAI_API_KEY"%string)); cbn [negb].
    + split; [|discriminate].
      destruct (truthy (environ w !! "OPENAI_BASE_URL"%string)); discriminate.
    + split; reflexivity.
  - intros key Hkey Hne. rewrite Hkey. destruct key as [|c key]; [contradiction|].
    cbn [truthy negb from_option id].
    destruct (environ w !! "OPENAI_BASE_URL"%string) as [[|c' url]|]; reflexivity.
Qed.

Section RaterOutcomes.
Context {I : Interpreter} (w : World).

Lemma make_client_raises runtime e :
  make_client w runtime = inl e →
  e = MissingApiKey ∧ runtime = str "cloud" ∧
  truthy (getenv w "OPENAI_API_KEY") = false.
Proof.
  unfold make_client.
  destruct (decide (runtime = str "cloud")) as [->|_]; [|discriminate].
  destruct (truthy (getenv w "OPENAI_API_KEY")); cbn [negb].
  - destruct (truthy (getenv w "OPENAI_BASE_URL")); discriminate.
  - intros [= <-]. auto.
Qed.

Lemma parse_rating_raises_limit content e :
  parse_rating content = inl e →
  e = ParseError content ∨
  ∃ n, e = IntDigitsLimit n ∧ int_max_str_digits ≠ 0%nat ∧
       (int_max_str_digits < n)%nat.
Proof.
  unfold parse_rating.
  destruct (re_search (default [] content)) as [g|] eqn:Hg;
    [|intros [= <-]; left; reflexivity].
  destruct (py_int_digits g (re_search_digits _ _ Hg))
    as [[Hover Hint] | [_ (n & Hint & _)]]; rewrite Hint; [|discriminate].
  intros [= <-]. right. exists (length g). split; [reflexivity|].
  unfold over_limit in Hover. apply andb_prop in Hover as [Hset Hlong].
  apply negb_true_iff, Nat.eqb_neq in Hset. apply Nat.ltb_lt in Hlong. auto.
Qed.

Lemma parse_rating_range content r :
  parse_rating content = inr r → (1 ≤ r ≤ 7)%Z.
Proof.
  unfold parse_rating. destruct (re_search _); [|discriminate].
  destruct (py_int _) as [e|n]; [discriminate|].
  intros [= <-]. apply clamp_rating_spec.
Qed.

End RaterOutcomes.

(** X2. The rater adds exactly one call to the log, carrying the client
    of the runtime, unless it stops on a configuration error (no SDK, or
    no key in the cloud runtime), in which case it makes no call. *)
Theorem rater_calls_once_unless_misconfigured `{Interpreter}
    w text model runtime lang log out log' :
  rate_sentiment_with_openai_api w text model runtime lang log = (out, log') →
  ((out = inl SdkUnavailable ∨ out = inl MissingApiKey) ∧ log' = log) ∨
  (∃ client,
     make_client w runtime = inr client ∧
     log' = log ++ [request_of client text model lang] ∧
     out ≠ inl SdkUnavailable ∧ out ≠ inl MissingApiKey).
Proof.
  rewrite rate_sentiment_run.
  destruct (sdk_available w); [|intros [= <- <-]; left; auto].
  destruct (make_client w runtime) as [e|client] eqn:Hclient.
  - apply make_client_raises in Hclient as (-> & _ & _).
    intros [= <- <-]. left. auto.
  - cbn zeta. intros Hrun. right. exists client. split; [reflexivity|].
    destruct (completion w log _) as [msg|response]; injection Hrun as <- <-.
    + repeat split; discriminate.
    + repeat split; intros [Hp|(n & Hp & _)]%parse_rating_raises_limit;
        discriminate.
Qed.

(** X3. The exceptions of the rater: no SDK; no key in the cloud runtime;
    the exception of the service; no bracketed digits in the content; or a
    run of digits longer than the limit of [int], when there is a limit.
    [int] never finds the matched text invalid. *)
Theorem rater_exceptions `{Interpreter} w text model runtime lang log e log' :
  rate_sentiment_with_openai_api w text model runtime lang log = (inl e, log') →
  (e = SdkUnavailable ∧ sdk_available w = false) ∨
  (e = MissingApiKey ∧ runtime = str "cloud" ∧
   truthy (getenv w "OPENAI_API_KEY") = false) ∨
  (∃ req msg, completion w log req = inl msg ∧ e = ApiError msg) ∨
  (∃ req response, completion w log req = inr response ∧
     e = ParseError (first_content response) ∧
     ¬ has_bracketed_digits (default [] (first_content response))) ∨
  (∃ n, e = IntDigitsLimit n ∧ int_max_str_digits ≠ 0%nat ∧
        (int_max_str_digits < n)%nat).
Proof.
  rewrite rate_sentiment_run.
  destruct (sdk_available w) eqn:Hsdk; [|intros [= <- <-]; left; auto].
  destruct (make_client w runtime) as [e0|client] eqn:Hclient.
  - apply make_client_raises in Hclient as (-> & Hcloud & Hkey).
    intros [= <- <-]. right. left. auto.
  - cbn zeta.
    destruct (completion w log _) as [msg|response] eqn:Hanswer.
    + intros [= <- <-]. right. right. left. eauto.
    + intros [= Hparse _]. right. right. right.
      destruct (parse_rating_raises_limit _ _ Hparse) as [->|Hlimit];
        [left | right; exact Hlimit].
      eexists _, response. split; [exact Hanswer|]. split; [reflexivity|].
      apply re_search_None. unfold parse_rating in Hparse.
      destruct (re_search _) as [g|] eqn:Hg; [|reflexivity].
      destruct (py_int_digits g (re_search_digits _ _ Hg))
        as [[_ Hint] | [_ (n & Hint & _)]]; rewrite Hint in Hparse; discriminate.
Qed.

(** ** What the search does not look at *)

Section SearchStability.
Context {I : Interpreter}.

Lemma take_digits_app s ds r rest post :
  take_digits s = (ds, r :: rest) →
  take_digits (s ++ post) = (ds, r :: rest ++ post).
Proof.
  revert ds. induction s as [|c s IH]; intros ds; simpl; [discriminate|].
  destruct (is_digit c).
  - destruct (take_digits s) as [ds0 rest0] eqn:Hs. intros [= <- ->].
    rewrite (IH ds0 eq_refl). reflexivity.
  - intros [= <- <- <-]. reflexivity.
Qed.

Lemma take_digits_all s :
  take_digits s = (s, []) → Forall (λ c, is_digit c = true) s.
Proof.
  intros Hs. apply take_digits_split in Hs as (_ & Hall & _). exact Hall.
Qed.

Lemma take_digits_nil_rest s ds :
  take_digits s = (ds, []) → ds = s.
Proof.
  intros Hs. apply take_digits_split in Hs as (-> & _ & _).
  rewrite app_nil_r. reflexivity.
Qed.

Lemma match_here_app s g post :
  match_here s = Some g → match_here (s ++ post) = Some g.
Proof.
  destruct s as [|c s]; simpl; [discriminate|].
  destruct (c =? LBRACKET); [|discriminate].
  destruct (take_digits s) as [ds [|r rest]] eqn:Hs.
  - destruct ds; discriminate.
  - rewrite (take_digits_app _ _ _ _ post Hs). intros Hg. exact Hg.
Qed.

(** A run of digits holds no opening bracket, hence no match. *)
Lemma re_search_all_digits s :
  Forall (λ c, is_digit c = true) s → re_search s = None.
Proof.
  induction 1 as [|c s Hc Hs IH]; [reflexivity|].
  cbn [re_search match_here].
  destruct (c =? LBRACKET) eqn:E; [|exact IH].
  apply N.eqb_eq in E as ->. rewrite lbracket_not_digit in Hc. discriminate.
Qed.

(** If the pattern fails at the start of [s] and [s] holds a match
    further on, the pattern still fails at the start of [s ++ post]. *)
Lemma match_here_app_None c s g post :
  match_here (c :: s) = None → re_search s = Some g →
  match_here ((c :: s) ++ post) = None.
Proof.
  simpl. destruct (c =? LBRACKET); [|reflexivity].
  destruct (take_digits s) as [ds [|r rest]] eqn:Hs.
  - intros _ Hg. apply take_digits_nil_rest in Hs as Hds. subst ds.
    apply take_digits_all in Hs. rewrite (re_search_all_digits s Hs) in Hg.
    discriminate.
  - rewrite (take_digits_app _ _ _ _ post Hs). intros Hnone _. exact Hnone.
Qed.

Lemma re_search_app s g post :
  re_search s = Some g → re_search (s ++ post) = Some g.
Proof.
  induction s as [|c s IH]; [discriminate|].
  rewrite <- app_comm_cons. cbn [re_search].
  change (c :: s ++ post) with ((c :: s) ++ post).
  destruct (match_here (c :: s)) as [g0|] eqn:Hm.
  - intros [= <-]. rewrite (match_here_app _ _ post Hm). reflexivity.
  - intros Hg. rewrite (match_here_app_None c s g post Hm Hg).
    apply IH, Hg.
Qed.

Lemma re_search_skip pre s :
  Forall (λ c, c ≠ LBRACKET) pre → re_search (pre ++ s) = re_search s.
Proof.
  induction 1 as [|c pre Hc Hpre IH]; [reflexivity|].
  rewrite <- app_comm_cons. cbn [re_search match_here].
  apply N.eqb_neq in Hc. rewrite Hc. exact IH.
Qed.

End SearchStability.

(** X4. Once a text holds bracketed digits, what comes after it does not
    change the outcome of the parser, and neither does a text without an
    opening bracket put in front of it. *)
Theorem rating_fixed_by_first_match `{Interpreter} pre s post :
  has_bracketed_digits s →
  Forall (λ c, c ≠ LBRACKET) pre →
  parse_rating (Some (pre ++ s ++ post)) = parse_rating (Some s).
Proof.
  intros Hhas Hpre. unfold parse_rating. cbn [from_option id].
  rewrite (re_search_skip pre _ Hpre).
  destruct (re_search s) as [g|] eqn:Hg.
  - rewrite (re_search_app s g post Hg). reflexivity.
  - apply re_search_None in Hg. contradiction.
Qed.

(** ** The clamp *)

(** X5. The clamp of lines 101-105 keeps the order of the parsed
    integers, changes nothing when applied a second time, and leaves an
    integer as it is exactly when it lies in [1, 7]. *)
Theorem clamp_rating_monotone_idempotent :
  (∀ n m, (n ≤ m)%Z → (clamp_rating n ≤ clamp_rating m)%Z) ∧
  (∀ n, clamp_rating (clamp_rating n) = clamp_rating n) ∧
  (∀ n, clamp_rating n = n ↔ (1 ≤ n ≤ 7)%Z).
Proof.
  assert (Hcases : ∀ n,
            ((n < 1)%Z ∧ clamp_rating n = 1%Z) ∨
            ((7 < n)%Z ∧ clamp_rating n = 7%Z) ∨
            ((1 ≤ n ≤ 7)%Z ∧ clamp_rating n = n)).
  { intros n. destruct (clamp_rating_spec n) as (_ & Hlow & Hhigh & Hmid).
    destruct (Z_lt_le_dec n 1); [left; auto|].
    destruct (Z_lt_le_dec 7 n); [right; left; auto|].
    right; right. split; [lia | apply Hmid; lia]. }
  split; [|split].
  - intros n m Hle.
    destruct (Hcases n) as [[? ->]|[[? ->]|[? ->]]];
      destruct (Hcases m) as [[? ->]|[[? ->]|[? ->]]]; lia.
  - intros n. destruct (Hcases n) as [[? ->]|[[? ->]|[? ->]]];
      [reflexivity | reflexivity |].
    destruct (Hcases n) as [[? ?]|[[? ?]|[? ?]]]; lia || assumption.
  - intros n. destruct (Hcases n) as [[? Hn]|[[? Hn]|[? Hn]]]; rewrite Hn; lia.
Qed.

(** ** The order and the size of the organized map *)

Section GrouperOrder.
Implicit Types (entries : list SentimentEntry) (organized : dict Payload)
  (l : list Z).

Lemma filter_not_elem_of_nil l : filter (λ k, k ∉ ([] : list Z)) l = l.
Proof.
  induction l as [|x l IH]; [reflexivity|].
  rewrite filter_cons_True by apply not_elem_of_nil. rewrite IH. reflexivity.
Qed.

Lemma filter_ne_not_elem_of x l : x ∉ l → filter (λ y, y ≠ x) l = l.
Proof.
  induction l as [|y l IH]; [reflexivity|].
  intros [Hne Hout]%not_elem_of_cons.
  rewrite filter_cons_True by congruence. rewrite IH by exact Hout. reflexivity.
Qed.

Lemma fold_organize_keys_order entries organized :
  dict_keys (fold_left organize_step entries organized) =
    dict_keys organized ++
    filter (λ k, k ∉ dict_keys organized)
      (first_occurrences (sentiment <$> entries)).
Proof.
  revert organized. induction entries as [|e entries IH]; intros organized.
  - simpl. rewrite app_nil_r. reflexivity.
  - cbn [fold_left]. rewrite IH, fmap_cons. cbn [first_occurrences].
    assert (Hfilter :
      filter (λ x, x ∉ dict_keys (organize_step organized e))
        (first_occurrences (sentiment <$> entries))
      = filter (λ x, x ∉ dict_keys organized)
          (filter (λ y, y ≠ sentiment e)
             (first_occurrences (sentiment <$> entries)))).
    { rewrite list_filter_filter. apply list_filter_iff. intros x.
      unfold organize_step. rewrite elem_of_dict_keys_set. tauto. }
    rewrite Hfilter. unfold organize_step. rewrite dict_keys_set.
    destruct (decide (sentiment e ∈ dict_keys organized)) as [Hin|Hout].
    + rewrite filter_cons_False by (intros Hout; exact (Hout Hin)).
      reflexivity.
    + rewrite filter_cons_True by exact Hout.
      rewrite <- app_assoc. reflexivity.
Qed.

Lemma dict_set_new {V} k (v : V) (d : dict V) :
  k ∉ dict_keys d → dict_set k v d = d ++ [(k, v)].
Proof.
  induction d as [|[k' v'] d IH]; [reflexivity|].
  rewrite dict_keys_cons. intros [Hne Hout]%not_elem_of_cons. cbn [dict_set].
  destruct (decide (k' = k)) as [->|_]; [contradiction|].
  rewrite IH by exact Hout. reflexivity.
Qed.

Lemma fold_organize_distinct entries organized :
  NoDup (dict_keys organized ++ (sentiment <$> entries)) →
  fold_left organize_step entries organized = organized ++ (item_of <$> entries).
Proof.
  revert organized. induction entries as [|e entries IH]; intros organized.
  - intros _. simpl. rewrite app_nil_r. reflexivity.
  - rewrite fmap_cons. intros Hnodup. cbn [fold_left].
    apply NoDup_app in Hnodup as (Hd & Hdisj & [Hfresh Hrest]%NoDup_cons).
    assert (sentiment e ∉ dict_keys organized) as Hout.
    { intros Hin. apply (Hdisj _ Hin). apply list_elem_of_here. }
    unfold organize_step at 2. rewrite dict_set_new by exact Hout.
    rewrite IH.
    + rewrite <- app_assoc. reflexivity.
    + unfold dict_keys. rewrite fmap_app. cbn [fmap list_fmap fst].
      rewrite <- app_assoc. cbn [app]. apply NoDup_app. repeat split.
      * exact Hd.
      * intros k Hk [->|Hin]%elem_of_cons; [exact (Hout Hk)|].
        apply (Hdisj _ Hk). apply list_elem_of_further, Hin.
      * apply NoDup_cons. split; assumption.
Qed.

Lemma first_occurrences_length l :
  (length (first_occurrences l) ≤ length l)%nat.
Proof.
  induction l as [|x l IH]; [reflexivity|]. cbn [first_occurrences length].
  pose proof (length_filter (λ y, y ≠ x) (first_occurrences l)). lia.
Qed.

Lemma first_occurrences_NoDup l : NoDup l → first_occurrences l = l.
Proof.
  induction 1 as [|x l Hx Hl IH]; [reflexivity|].
  cbn [first_occurrences]. rewrite IH, filter_ne_not_elem_of by exact Hx.
  reflexivity.
Qed.

Lemma first_occurrences_full l :
  length (first_occurrences l) = length l → NoDup l.
Proof.
  induction l as [|x l IH]; [intros _; apply NoDup_nil_2|].
  cbn [first_occurrences length]. intros Hlen.
  pose proof (length_filter (λ y, y ≠ x) (first_occurrences l)) as Hfilter.
  pose proof (first_occurrences_length l) as Hfirst.
  assert (NoDup l) as Hl by (apply IH; lia).
  apply NoDup_cons. split; [|exact Hl].
  intros Hin. rewrite (first_occurrences_NoDup l Hl) in Hlen.
  pose proof (length_filter_lt (λ y, y ≠ x) l x Hin) as Hlt.
  assert (¬ x ≠ x) as Hxx by (intros Hne; apply Hne; reflexivity).
  specialize (Hlt Hxx). lia.
Qed.

Lemma organize_keys_first_occurrences entries :
  dict_keys (organize_sentiments_by_score entries)
    = first_occurrences (sentiment <$> entries).
Proof.
  rewrite organize_fold, fold_organize_keys_order.
  rewrite dict_keys_nil. cbn [app]. apply filter_not_elem_of_nil.
Qed.

End GrouperOrder.

(** X6. The keys of the organized map come in the order in which the
    scores first occur in the list: a later entry with a score already
    seen changes the value and not the place of the key. *)
Theorem organized_keys_in_first_occurrence_order entries :
  dict_keys (organize_sentiments_by_score entries)
    = first_occurrences (sentiment <$> entries).
Proof. apply organize_keys_first_occurrences. Qed.

(** X7. When the scores of the list are all different the organized map
    lists the entries one for one in list order; and the map has as many
    entries as the list exactly in that case, fewer otherwise. *)
Theorem organize_keeps_entries_with_distinct_scores entries :
  (NoDup (sentiment <$> entries) →
     organize_sentiments_by_score entries = item_of <$> entries) ∧
  (dict_len (organize_sentiments_by_score entries) ≤ length entries)%nat ∧
  (dict_len (organize_sentiments_by_score entries) = length entries ↔
     NoDup (sentiment <$> entries)).
Proof.
  assert (Hlen : dict_len (organize_sentiments_by_score entries)
                 = length (first_occurrences (sentiment <$> entries))).
  { rewrite <- organize_keys_first_occurrences.
    unfold dict_len, dict_keys. rewrite length_fmap. reflexivity. }
  split; [|split].
  - intros Hnodup. rewrite organize_fold.
    rewrite fold_organize_distinct by (rewrite dict_keys_nil; exact Hnodup).
    reflexivity.
  - rewrite Hlen. etransitivity; [apply first_occurrences_length|].
    rewrite length_fmap. reflexivity.
  - rewrite Hlen, <- (length_fmap sentiment entries). split.
    + apply first_occurrences_full.
    + intros Hnodup. rewrite first_occurrences_NoDup by exact Hnodup.
      reflexivity.
Qed.

(** ** The results of a batch *)

Section BatchResults.
Context {I : Interpreter} (w : World).

Lemma rate_sentiment_log_client text model runtime lang log out log' :
  rate_sentiment_with_openai_api w text model runtime lang log = (out, log') →
  log' = log ∨
  ∃ client, make_client w runtime = inr client ∧
            log' = log ++ [request_of client text model lang].
Proof.
  rewrite rate_sentiment_run.
  destruct (sdk_available w); [|intros [= _ <-]; left; reflexivity].
  destruct (make_client w runtime) as [e|client];
    [intros [= _ <-]; left; reflexivity|].
  cbn zeta. intros Hrun. right. exists client. split; [reflexivity|].
  destruct (completion w log _); injection Hrun as _ <-; reflexivity.
Qed.

Lemma rate_items_clients items runtime lang results log out log' :
  rate_items w items runtime lang results log = (out, log') →
  ∃ requests,
    log' = log ++ requests ∧
    ∀ req, req ∈ requests → make_client w runtime = inr (req_client req).
Proof.
  revert results log. induction items as [|[score payload] items IH];
    intros results log.
  - intros [= _ <-]. exists []. rewrite app_nil_r. split; [reflexivity|].
    intros req []%elem_of_nil.
  - rewrite rate_items_cons.
    destruct (rate_sentiment_with_openai_api w _ _ _ _ log)
      as [[e|predicted] log1] eqn:Hrate;
      apply rate_sentiment_log_client in Hrate as Hlog.
    + intros [= _ <-]. destruct Hlog as [->|(client & Hclient & ->)].
      * exists []. rewrite app_nil_r. split; [reflexivity|].
        intros req []%elem_of_nil.
      * eexists [_]. split; [reflexivity|].
        intros req ->%list_elem_of_singleton. exact Hclient.
    + intros (requests & -> & Hall)%IH.
      destruct Hlog as [->|(client & Hclient & ->)].
      * exists requests. split; [reflexivity | exact Hall].
      * eexists (_ :: requests). rewrite <- app_assoc. split; [reflexivity|].
        intros req [->|Hin]%elem_of_cons; [exact Hclient | apply Hall, Hin].
Qed.

Lemma rate_items_results items runtime lang results log results' log' :
  rate_items w items runtime lang results log = (inr results', log') →
  (∀ k r, dict_get k results' = Some r →
          dict_get k results = Some r ∨ (1 ≤ r ≤ 7)%Z) ∧
  (NoDup (dict_keys results ++ dict_keys items) →
   dict_keys results' = dict_keys results ++ dict_keys items).
Proof.
  revert results log. induction items as [|[score payload] items IH];
    intros results log.
  - intros [= <- _]. split; [auto|]. intros _.
    rewrite dict_keys_nil, app_nil_r. reflexivity.
  - rewrite rate_items_cons.
    destruct (rate_sentiment_with_openai_api w _ _ _ _ log)
      as [[e|predicted] log1] eqn:Hrate; [discriminate|].
    apply rate_sentiment_returns in Hrate
      as (client & response & _ & _ & _ & Hparse).
    apply parse_rating_range in Hparse.
    intros [Hget Hkeys]%IH. split.
    + intros k r [Hr|Hr]%Hget; [|right; exact Hr].
      destruct (decide (score = k)) as [->|Hne].
      * rewrite dict_get_set_eq in Hr. injection Hr as <-. right. exact Hparse.
      * rewrite dict_get_set_ne in Hr by exact Hne. left. exact Hr.
    + rewrite dict_keys_cons. intros Hnodup.
      assert (score ∉ dict_keys results) as Hout.
      { apply NoDup_app in Hnodup as (_ & Hdisj & _).
        intros Hin. apply (Hdisj _ Hin). apply list_elem_of_here. }
      assert (dict_keys (dict_set score predicted results)
              = dict_keys results ++ [score]) as Hset.
      { rewrite dict_keys_set. destruct (decide (score ∈ dict_keys results));
          [contradiction | reflexivity]. }
      rewrite Hkeys; rewrite Hset, <- app_assoc; [reflexivity | exact Hnodup].
Qed.

End BatchResults.

(** X8. When the batch rater returns, the results have the keys of the
    organized map in the same order, as many entries, and every rating
    lies in [1, 7]. The keys of a dictionary are all different. *)
Theorem batch_results_follow_the_map `{Interpreter}
    w organized runtime lang log results log' :
  NoDup (dict_keys organized) →
  rate_all_texts w organized runtime lang log = (inr results, log') →
  dict_keys results = dict_keys organized ∧
  dict_len results = dict_len organized ∧
  ∀ k r, dict_get k results = Some r → (1 ≤ r ≤ 7)%Z.
Proof.
  intros Hnodup Hrun. unfold rate_all_texts in Hrun.
  apply rate_items_results in Hrun as [Hget Hkeys].
  rewrite dict_keys_nil in Hkeys. specialize (Hkeys Hnodup). cbn [app] in Hkeys.
  split; [exact Hkeys|]. split.
  - unfold dict_len. rewrite <- (length_fmap fst results).
    rewrite <- (length_fmap fst organized). f_equal. exact Hkeys.
  - intros k r [Hr|Hr]%Hget; [discriminate | exact Hr].
Qed.

(** X9. All the calls that a batch adds to the log carry the same client,
    the one that the runtime and the environment determine. *)
Theorem batch_uses_one_client `{Interpreter}
    w organized runtime lang log out log' :
  rate_all_texts w organized runtime lang log = (out, log') →
  ∃ requests,
    log' = log ++ requests ∧
    ∀ req, req ∈ requests → make_client w runtime = inr (req_client req).
Proof. apply rate_items_clients. Qed.

(** ** The text inside the prompt *)

Lemma build_prompts_user_shape lang :
  ∃ before after,
    ∀ text, snd (build_prompts text lang) = before ++ text ++ after.
Proof.
  destruct (decide (lang = str "nl")) as [->|Hne].
  - exists (take 145 (snd (build_prompts [] (str "nl")))),
           (drop 145 (snd (build_prompts [] (str "nl")))).
    intros text. vm_compute. reflexivity.
  - exists (take 154 (snd (build_prompts [] (str "en")))),
           (drop 154 (snd (build_prompts [] (str "en")))).
    intros text. unfold build_prompts at 1.
    destruct (decide (lang = str "nl")); [contradiction|].
    vm_compute. reflexivity.
Qed.

(** X10. For a given language tag, two texts with the same user prompt are
    the same text: the prompt determines the text it was built from, and
    its length is that of the text plus a constant. *)
Theorem build_prompts_injective lang :
  (∀ text1 text2,
     snd (build_prompts text1 lang) = snd (build_prompts text2 lang) →
     text1 = text2) ∧
  (∀ text,
     length (snd (build_prompts text lang))
     = (length text + length (snd (build_prompts [] lang)))%nat).
Proof.
  destruct (build_prompts_user_shape lang) as (before & after & Hshape).
  split.
  - intros text1 text2. rewrite !Hshape.
    intros Heq%app_inv_head%app_inv_tail. exact Heq.
  - intros text. rewrite !Hshape, !length_app. simpl. lia.
Qed.

(** ** The command line *)

Section MainFacts.
Context {I : Interpreter} (w : World).

Lemma rate_sentiment_config_error text model runtime lang log e log' :
  rate_sentiment_with_openai_api w text model runtime lang log = (inl e, log') →
  (e = SdkUnavailable → sdk_available w = false) ∧
  (e = MissingApiKey →
   runtime = str "cloud" ∧ truthy (getenv w "OPENAI_API_KEY") = false).
Proof.
  rewrite rate_sentiment_run.
  destruct (sdk_available w); [|intros [= <- _]; split; [auto | discriminate]].
  destruct (make_client w runtime) as [e0|client] eqn:Hclient.
  - apply make_client_raises in Hclient as (-> & Hcloud & Hkey).
    intros [= <- _]. split; [discriminate | auto].
  - cbn zeta. destruct (completion w log _) as [msg|response].
    + intros [= <- _]. split; discriminate.
    + intros [= Hparse _].
      apply parse_rating_raises_limit in Hparse as [->|(n & -> & _)];
        split; discriminate.
Qed.

(** An exception of the batch is an exception of the rater on one of
    the texts. *)
Lemma rate_items_raises items runtime lang results log e log' :
  rate_items w items runtime lang results log = (inl e, log') →
  ∃ text log0 log1,
    rate_sentiment_with_openai_api w text (str "gpt-4o-mini") runtime lang log0
      = (inl e, log1).
Proof.
  revert results log. induction items as [|[score payload] items IH];
    intros results log; [discriminate|].
  rewrite rate_items_cons.
  destruct (rate_sentiment_with_openai_api w _ _ _ _ log)
    as [[e0|predicted] log1] eqn:Hrate.
  - intros [= <- <-]. eauto.
  - apply IH.
Qed.

Lemma rating_enabled_true runtime :
  rating_enabled w runtime = true →
  sdk_available w = true ∧
  (truthy (getenv w "OPENAI_API_KEY") = true ∨ runtime = RuntimeLocal).
Proof.
  unfold rating_enabled. intros [Hsdk Hgate]%andb_prop. split; [exact Hsdk|].
  apply orb_prop in Hgate as [Hkey|Hlocal]; [left; exact Hkey|].
  right. destruct runtime; [|reflexivity].
  apply bool_decide_eq_true in Hlocal. vm_compute in Hlocal. discriminate.
Qed.

Lemma rating_enabled_false runtime :
  rating_enabled w runtime = false ↔
  sdk_available w = false ∨
  (runtime = RuntimeCloud ∧ truthy (getenv w "OPENAI_API_KEY") = false).
Proof.
  unfold rating_enabled. destruct (sdk_available w); cbn [andb].
  - destruct (truthy (getenv w "OPENAI_API_KEY")); cbn [orb].
    + split; [discriminate | intros [?|[_ ?]]; discriminate].
    + destruct runtime.
      * split; [auto|]. intros _. apply bool_decide_eq_false.
        vm_compute. discriminate.
      * split; [|intros [?|[? _]]; discriminate].
        intros Hlocal. apply bool_decide_eq_false in Hlocal.
        exfalso. apply Hlocal. reflexivity.
  - split; auto.
Qed.

End MainFacts.

(** X11. The command line never ends on a configuration error of the
    rater: it rates only when the SDK is there and, in the cloud runtime,
    when the key is set and not empty. *)
Theorem main_never_raises_configuration_error `{Interpreter}
    w load lang runtime log :
  fst (main w load lang runtime log) ≠ inl (RaterError SdkUnavailable) ∧
  fst (main w load lang runtime log) ≠ inl (RaterError MissingApiKey).
Proof.
  unfold main. destruct (load _) as [msg|entries]; [split; discriminate|].
  destruct (rating_enabled w runtime) eqn:Hgate; [|split; discriminate].
  apply rating_enabled_true in Hgate as [Hsdk Hgate].
  destruct (rate_all_texts w _ _ _ log) as [[e|ratings] log'] eqn:Hrun;
    [|split; discriminate].
  unfold rate_all_texts in Hrun.
  apply rate_items_raises in Hrun as (text & log0 & log1 & Hrate).
  apply rate_sentiment_config_error in Hrate as [Hnosdk Hnokey].
  cbn [fst]. split; intros [= ->].
  - rewrite Hnosdk in Hsdk by reflexivity. discriminate.
  - destruct (Hnokey eq_refl) as [Hcloud Hkey].
    destruct Hgate as [Hset| ->]; [congruence|].
    vm_compute in Hcloud. discriminate.
Qed.

(** X12. The command line prints nothing, makes no call and raises
    nothing exactly when the dataset was read and either the SDK is not
    there or the runtime is the cloud one with OPENAI_API_KEY unset or
    empty. *)
Theorem main_silent_without_key `{Interpreter} w load lang runtime log log' :
  main w load lang runtime log = (inr None, log') ↔
  log' = log ∧
  (∃ entries, load (dataset_filename (lang_str lang)) = inr entries) ∧
  (sdk_available w = false ∨
   (runtime = RuntimeCloud ∧
    (environ w !! "OPENAI_API_KEY"%string = None ∨
     environ w !! "OPENAI_API_KEY"%string = Some []))).
Proof.
  rewrite <- truthy_false. fold (getenv w "OPENAI_API_KEY").
  rewrite <- rating_enabled_false. unfold main.
  destruct (load _) as [msg|entries].
  - split; [discriminate | intros (_ & [entries [=]] & _)].
  - destruct (rating_enabled w runtime).
    + split; [|intros (_ & _ & [=])].
      destruct (rate_all_texts w _ _ _ log) as [[e|ratings] log1]; discriminate.
    + split; [intros [= <-]; eauto | intros (-> & _ & _); reflexivity].
Qed.

(** X13. When the command line prints a report, the dataset read is the
    one of the language (English for en, Dutch for nl); the report has one
    rating in [1, 7] per distinct score, in the order in which the scores
    first occur in the dataset; and the calls made are one per entry of
    the organized map, in its order, with the prompts of that language. *)
Theorem main_report_shape `{Interpreter} w load lang runtime log ratings log' :
  main w load lang runtime log = (inr (Some ratings), log') →
  ∃ entries requests,
    load match lang with
         | LangEn => "sentiments-in-english.json"%string
         | LangNl => "sentiments-in-dutch.json"%string
         end = inr entries ∧
    dict_keys ratings = first_occurrences (sentiment <$> entries) ∧
    (∀ k r, dict_get k ratings = Some r → (1 ≤ r ≤ 7)%Z) ∧
    log' = log ++ requests ∧
    Forall2 (request_for (lang_str lang))
      (organize_sentiments_by_score entries) requests.
Proof.
  unfold main.
  assert (dataset_filename (lang_str lang) =
          match lang with
          | LangEn => "sentiments-in-english.json"%string
          | LangNl => "sentiments-in-dutch.json"%string
          end) as -> by (destruct lang; vm_compute; reflexivity).
  destruct (load _) as [msg|entries]; [discriminate|].
  destruct (rating_enabled w runtime); [|discriminate].
  destruct (rate_all_texts w _ _ _ log) as [[e|ratings0] log1] eqn:Hrun;
    [discriminate|].
  intros [= -> ->]. unfold rate_all_texts in Hrun.
  pose proof (rate_items_results _ _ _ _ _ _ _ _ Hrun) as [Hget Hkeys].
  apply rate_items_trace in Hrun as (requests & -> & Htrace & Hdone).
  destruct (Hdone ratings eq_refl) as [Hlen _].
  exists entries, requests. split; [reflexivity|]. split.
  { rewrite <- organize_keys_first_occurrences. rewrite Hkeys; [reflexivity|].
    rewrite dict_keys_nil. cbn [app].
    rewrite organize_keys_first_occurrences.
    clear. induction (sentiment <$> entries) as [|x l IH];
      [apply NoDup_nil_2|].
    cbn [first_occurrences]. apply NoDup_cons. split.
    - intros [Hne _]%list_elem_of_filter. apply Hne. reflexivity.
    - apply NoDup_filter, IH. }
  split.
  { intros k r [Hr|Hr]%Hget; [discriminate | exact Hr]. }
  split; [reflexivity|].
  rewrite Hlen, firstn_all in Htrace. exact Htrace.
Qed.

(** ** Digits of any script and responses of ordinary length *)

(** X14. One bracketed decimal digit of any script of the digit table is
    a rating: the outcome is the clamp of the digit's value. *)
Theorem single_digit_of_any_script `{Interpreter} c d :
  to_decimal c = Some d →
  parse_rating (Some [LBRACKET; c; RBRACKET]) = inr (clamp_rating d).
Proof.
  intros Hd.
  assert (is_digit c = true) as Hc by (unfold is_digit; rewrite Hd; reflexivity).
  assert (re_search [LBRACKET; c; RBRACKET] = Some [c]) as Hg.
  { cbn [re_search match_here take_digits]. rewrite Hc, rbracket_not_digit.
    reflexivity. }
  unfold parse_rating. cbn [from_option id]. rewrite Hg.
  unfold py_int. rewrite short_not_over_limit by (simpl; lia).
  unfold digits_value. cbn [fold_left digit_step]. rewrite Hd.
  reflexivity.
Qed.

(** X15. A response of at most 640 characters that holds bracketed
    digits always gives a rating in [1, 7]: the conversion of line 100
    cannot fail on it, whatever the limit of the interpreter. *)
Theorem short_response_with_digits_is_rated `{Interpreter} content :
  (length (default [] content) ≤ 640)%nat →
  has_bracketed_digits (default [] content) →
  ∃ r, parse_rating content = inr r ∧ (1 ≤ r ≤ 7)%Z.
Proof.
  intros Hlen Hhas. unfold parse_rating.
  destruct (re_search (default [] content)) as [g|] eqn:Hg.
  - pose proof (re_search_digits _ _ Hg) as Hdigits.
    apply re_search_Some in Hg as (pre & post & [Heq _] & _).
    assert (length g ≤ 640)%nat as Hshort.
    { rewrite Heq in Hlen.
      rewrite length_app, length_cons, length_app, length_cons in Hlen. lia. }
    destruct (py_int_digits g Hdigits)
      as [[Hover _] | [_ (n & Hint & _)]].
    + rewrite short_not_over_limit in Hover by exact Hshort. discriminate.
    + rewrite Hint. eexists. split; [reflexivity | apply clamp_rating_spec].
  - apply re_search_None in Hg. contradiction.
Qed.

(** ** The further properties at work *)

Lemma cloud_runtime_credentials_witness :
  make_client demo_world (str "cloud") = inr demo_client.
Proof.
  assert (Hkey : environ demo_world !! "OPENAI_API_KEY"%string
                 = Some (str "sk-test")) by (vm_compute; reflexivity).
  assert (Hne : str "sk-test" ≠ []) by (vm_compute; discriminate).
  rewrite (proj2 (cloud_runtime_credentials demo_world) (str "sk-test") Hkey Hne).
  vm_compute. reflexivity.
Defined.

Lemma rater_calls_once_unless_misconfigured_witness :
  ∃ client,
    make_client demo_world (str "cloud") = inr client ∧
    [request_of demo_client (str "A") (str "gpt-4o-mini") (str "en")]
    = [] ++ [request_of client (str "A") (str "gpt-4o-mini") (str "en")].
Proof.
  assert (Hrun :
    rate_sentiment_with_openai_api demo_world
      (str "A") (str "gpt-4o-mini") (str "cloud") (str "en") []
    = (inr 7%Z, [request_of demo_client (str "A") (str "gpt-4o-mini") (str "en")]))
    by (vm_compute; reflexivity).
  destruct (rater_calls_once_unless_misconfigured _ _ _ _ _ _ _ _ Hrun)
    as [[[Hout|Hout] _] | (client & Hclient & Hlog & _)];
    [discriminate | discriminate | eauto].
Defined.

Lemma rater_exceptions_witness :
  ∃ req response,
    completion demo_world
      [request_of demo_client (str "A") (str "gpt-4o-mini") (str "en")] req
      = inr response ∧
    ¬ has_bracketed_digits (default [] (first_content response)).
Proof.
  assert (Hrun :
    rate_sentiment_with_openai_api demo_world
      (str "B") (str "gpt-4o-mini") (str "cloud") (str "en")
      [request_of demo_client (str "A") (str "gpt-4o-mini") (str "en")]
    = (inl (ParseError (Some (str "no rating here"))),
       [request_of demo_client (str "A") (str "gpt-4o-mini") (str "en");
        request_of demo_client (str "B") (str "gpt-4o-mini") (str "en")]))
    by (vm_compute; reflexivity).
  destruct (rater_exceptions _ _ _ _ _ _ _ _ Hrun)
    as [[Hsdk _] | [[Hkey _] | [(req & msg & _ & Hapi) |
        [(req & response & Hanswer & _ & Hnone) | (n & Hlimit & _)]]]];
    [discriminate | discriminate | discriminate | eauto | discriminate].
Defined.

Lemma rating_fixed_by_first_match_witness :
  parse_rating (Some (str "Score: " ++ str "[5]" ++ str " or [3]"))
  = parse_rating (Some (str "[5]")).
Proof.
  apply rating_fixed_by_first_match.
  - exists [], (str "5"), []. split; [vm_compute; reflexivity|].
    split; [vm_compute; discriminate|].
    constructor; [vm_compute; reflexivity | constructor].
  - repeat (constructor; [vm_compute; discriminate|]). constructor.
Defined.

Lemma clamp_rating_monotone_idempotent_witness :
  (clamp_rating 0 ≤ clamp_rating 9)%Z.
Proof.
  apply (proj1 clamp_rating_monotone_idempotent 0%Z 9%Z). lia.
Defined.

Lemma organize_keeps_entries_with_distinct_scores_witness :
  organize_sentiments_by_score
    [ {| sentiment := 7; heading := str "Very positive"; text := str "A" |};
      {| sentiment := 1; heading := str "Very negative"; text := str "B" |} ]
  = [ (7%Z, {| payload_heading := str "Very positive"; payload_text := str "A" |});
      (1%Z, {| payload_heading := str "Very negative"; payload_text := str "B" |}) ].
Proof.
  assert (Hnodup : NoDup [7%Z; 1%Z])
    by (apply (bool_decide_unpack _); vm_compute; exact I).
  exact (proj1 (organize_keeps_entries_with_distinct_scores
    [ {| sentiment := 7; heading := str "Very positive"; text := str "A" |};
      {| sentiment := 1; heading := str "Very negative"; text := str "B" |} ])
    Hnodup).
Defined.

Lemma batch_results_follow_the_map_witness :
  dict_keys [(7%Z, 4%Z); (1%Z, 4%Z)] = [7%Z; 1%Z] ∧
  dict_len [(7%Z, 4%Z); (1%Z, 4%Z)] = 2%nat.
Proof.
  assert (Hrun :
    rate_all_texts bare_world
      [ (7%Z, {| payload_heading := str "h7"; payload_text := str "A" |});
        (1%Z, {| payload_heading := str "h1"; payload_text := str "B" |}) ]
      (str "local") (str "en") []
    = (inr [(7%Z, 4%Z); (1%Z, 4%Z)],
       snd (rate_all_texts bare_world
              [ (7%Z, {| payload_heading := str "h7"; payload_text := str "A" |});
                (1%Z, {| payload_heading := str "h1"; payload_text := str "B" |}) ]
              (str "local") (str "en") [])))
    by (vm_compute; reflexivity).
  assert (Hnodup : NoDup [7%Z; 1%Z])
    by (apply (bool_decide_unpack _); vm_compute; exact I).
  destruct (batch_results_follow_the_map bare_world
      [ (7%Z, {| payload_heading := str "h7"; payload_text := str "A" |});
        (1%Z, {| payload_heading := str "h1"; payload_text := str "B" |}) ]
      (str "local") (str "en") [] _ _ Hnodup Hrun)
    as (Hkeys & Hlen & _).
  split; [exact Hkeys | exact Hlen].
Defined.

Lemma batch_uses_one_client_witness :
  ∃ requests,
    snd (rate_all_texts bare_world
           [ (7%Z, {| payload_heading := str "h7"; payload_text := str "A" |}) ]
           (str "local") (str "en") []) = [] ++ requests ∧
    ∀ req, req ∈ requests →
           make_client bare_world (str "local") = inr (req_client req).
Proof.
  apply (batch_uses_one_client bare_world
           [ (7%Z, {| payload_heading := str "h7"; payload_text := str "A" |}) ]
           (str "local") (str "en") []
           (fst (rate_all_texts bare_world
                   [ (7%Z, {| payload_heading := str "h7"; payload_text := str "A" |}) ]
                   (str "local") (str "en") []))).
  vm_compute. reflexivity.
Defined.

Lemma build_prompts_injective_witness : str "A" = str "A".
Proof.
  apply (proj1 (build_prompts_injective (str "nl")) (str "A") (str "A")).
  reflexivity.
Defined.

Lemma main_silent_without_key_witness :
  main bare_world demo_load LangEn RuntimeCloud [] = (inr None, []).
Proof.
  apply main_silent_without_key. split; [reflexivity|]. split.
  - eexists. vm_compute. reflexivity.
  - right. split; [reflexivity|]. left. vm_compute. reflexivity.
Defined.

Lemma main_report_shape_witness :
  ∃ entries,
    demo_load "sentiments-in-english.json"%string = inr entries ∧
    dict_keys [(7%Z, 4%Z); (1%Z, 4%Z)] = first_occurrences (sentiment <$> entries).
Proof.
  assert (Hrun :
    main bare_world demo_load LangEn RuntimeLocal []
    = (inr (Some [(7%Z, 4%Z); (1%Z, 4%Z)]),
       snd (main bare_world demo_load LangEn RuntimeLocal [])))
    by (vm_compute; reflexivity).
  destruct (main_report_shape _ _ _ _ _ _ _ Hrun)
    as (entries & requests & Hload & Hkeys & _).
  exists entries. split; [exact Hload | exact Hkeys].
Defined.

Lemma single_digit_of_any_script_witness :
  parse_rating (Some [LBRACKET; 1635; RBRACKET]) = inr (clamp_rating 3).
Proof.
  apply single_digit_of_any_script. vm_compute. reflexivity.
Defined.

Lemma short_response_with_digits_is_rated_witness :
  ∃ r, parse_rating (Some (str "I think the score is [5].")) = inr r ∧
       (1 ≤ r ≤ 7)%Z.
Proof.
  apply short_response_with_digits_is_rated.
  - apply Nat.leb_le. vm_compute. reflexivity.
  - exists (str "I think the score is "), (str "5"), (str ".").
    split; [vm_compute; reflexivity|].
    split; [vm_compute; discriminate|].
    constructor; [vm_compute; reflexivity | constructor].
Defined.
